(** * monitora-mt: cache core, fire listing and location enrichment

    A shallow embedding of [backend/.../CacheCore] (TTL stores, key
    builders, global switch) and of [backend/apis/firms/services/FireService.js]
    (listing, pagination, metadata, location enrichment), with the
    properties of the specification stated and proved over it.

    Conventions of the embedding:
    - JavaScript values are the inductive [JsVal]; an object is the list of
      its own fields in insertion order (property names are taken not to be
      array indices, which JavaScript would reorder);
    - numbers are the integer-valued ones and [NaN] (what [parseInt] can
      return), as exact [Z]: rounding of IEEE doubles is not modelled;
    - [Date.now()] is an explicit argument in milliseconds;
    - a thrown exception or a rejected promise is [Throw e] in the result
      type [Res]; [await] is sequencing in that monad;
    - [console.log] and [console.warn] are not modelled. *)

From Stdlib Require Import ZArith List String Ascii Permutation Lia DecimalString.
From Stdlib Require DecimalPos DecimalZ.
From stdpp Require Import gmap strings list fin_maps.

Local Open Scope string_scope.
Local Open Scope Z_scope.

(* ===================================================================== *)
(** ** JavaScript values *)
(* ===================================================================== *)

Module JS.

Inductive JsNum : Type :=
| NaN
| Num (z : Z).

#[local] Set Warnings "-register-all".

Inductive JsVal : Type :=
| JUndef
| JNull
| JBool (b : bool)
| JNum (n : JsNum)
| JStr (s : string)
| JArr (l : list JsVal)
| JObj (fs : list (string * JsVal)).

Inductive JsError : Type :=
| Error (message : string)
| TypeError (message : string).

(** Outcome of a computation that may throw (or of an awaited promise). *)
Inductive Res (A : Type) : Type :=
| Ok (a : A)
| Throw (e : JsError).
Arguments Ok {A} a.
Arguments Throw {A} e.

Definition bind {A B} (m : Res A) (k : A -> Res B) : Res B :=
  match m with
  | Ok a => k a
  | Throw e => Throw e
  end.

Fixpoint mapM {A B} (f : A -> Res B) (l : list A) : Res (list B) :=
  match l with
  | [] => Ok []
  | x :: r => bind (f x) (fun y => bind (mapM f r) (fun ys => Ok (y :: ys)))
  end.

(** ToBoolean *)
Definition truthy (v : JsVal) : bool :=
  match v with
  | JUndef | JNull => false
  | JBool b => b
  | JNum NaN => false
  | JNum (Num z) => negb (z =? 0)%Z
  | JStr s => negb (String.eqb s EmptyString)
  | JArr _ | JObj _ => true
  end.

Definition is_undefined (v : JsVal) : bool :=
  match v with
  | JUndef => true
  | _ => false
  end.

(** [a || b] *)
Definition js_or (a b : JsVal) : JsVal := if truthy a then a else b.

(** [v === 'lit'] for a string literal *)
Definition strict_eq_str (v : JsVal) (lit : string) : bool :=
  match v with
  | JStr s => String.eqb s lit
  | _ => false
  end.

(** [v === true] *)
Definition strict_eq_true (v : JsVal) : bool :=
  match v with
  | JBool true => true
  | _ => false
  end.

Inductive JsType : Type := TUndefined | TObject | TBoolean | TNumber | TString.

Definition typeof (v : JsVal) : JsType :=
  match v with
  | JUndef => TUndefined
  | JNull | JArr _ | JObj _ => TObject
  | JBool _ => TBoolean
  | JNum _ => TNumber
  | JStr _ => TString
  end.

(** Own field of an object literal, [JUndef] when absent. *)
Fixpoint field (fs : list (string * JsVal)) (k : string) : JsVal :=
  match fs with
  | [] => JUndef
  | (k', v) :: r => if String.eqb k' k then v else field r k
  end.

(** [{...fs, k: v}]: an existing field keeps its place, a new one is appended. *)
Fixpoint set_field (fs : list (string * JsVal)) (k : string) (v : JsVal)
  : list (string * JsVal) :=
  match fs with
  | [] => [(k, v)]
  | (k', v') :: r =>
      if String.eqb k' k then (k', v) :: r else (k', v') :: set_field r k v
  end.

(** [v.k]: a TypeError on [undefined] and [null]; the properties read by the
    embedded code ([localizacao], [municipio], [start], ...) exist on no
    primitive and on no array, where the read gives [undefined]. *)
Definition prop (v : JsVal) (k : string) : Res JsVal :=
  match v with
  | JUndef | JNull => Throw (TypeError "Cannot read properties of undefined or null")
  | JObj fs => Ok (field fs k)
  | _ => Ok JUndef
  end.

(** [v?.k] *)
Definition opt_prop (v : JsVal) (k : string) : JsVal :=
  match v with
  | JObj fs => field fs k
  | _ => JUndef
  end.

(** The own enumerable fields copied by [{...v}]: those of an object, none
    for [undefined], [null], booleans and numbers. Strings and arrays (whose
    indices would be copied) are never spread by the embedded code on the
    paths studied and are given no field. *)
Definition spread (v : JsVal) : list (string * JsVal) :=
  match v with
  | JObj fs => fs
  | _ => []
  end.

Global Instance Res_bind : MBind Res := fun A B k m => bind m k.
Global Instance Res_ret : MRet Res := fun A a => Ok a.

(** [arr.every(p)]: stops at the first element that fails [p]. *)
Fixpoint every (p : JsVal -> Res bool) (l : list JsVal) : Res bool :=
  match l with
  | [] => Ok true
  | x :: r => b ← p x; if b : bool then every p r else Ok false
  end.

(** [arr.filter(p).length]: [p] is called on every element. *)
Definition count_if (p : JsVal -> Res bool) (l : list JsVal) : Res Z :=
  bs ← mapM p l; Ok (Z.of_nat (length (filter (fun b : bool => b = true) bs))).

(** An array, or the TypeError of calling [.map]/[.filter]/[.every] on
    something else. *)
Definition as_array (v : JsVal) : Res (list JsVal) :=
  match v with
  | JArr l => Ok l
  | _ => Throw (TypeError "not an array")
  end.

(** *** [parseInt(v, 10)] *)

(** The ASCII members of StrWhiteSpaceChar (TAB, LF, VT, FF, CR, SP). *)
Definition is_space (c : ascii) : bool :=
  let n := nat_of_ascii c in
  ((9 <=? n) && (n <=? 13))%nat || (n =? 32)%nat.

Definition digit_of (c : ascii) : option Z :=
  let n := nat_of_ascii c in
  if ((48 <=? n) && (n <=? 57))%nat then Some (Z.of_nat n - 48) else None.

Fixpoint skip_spaces (s : string) : string :=
  match s with
  | String c r => if is_space c then skip_spaces r else s
  | EmptyString => s
  end.

(** Value of the longest prefix of decimal digits, [None] when it is empty;
    [acc] carries the digits already read. *)
Fixpoint read_digits (s : string) (acc : option Z) : option Z :=
  match s with
  | String c r =>
      match digit_of c with
      | Some d => read_digits r (Some (10 * default 0 acc + d))
      | None => acc
      end
  | EmptyString => acc
  end.

(** [parseInt] of a string in radix 10: leading white space, an optional
    sign, then digits up to the first character that is not one. *)
Definition parseInt_string (s : string) : JsNum :=
  let t := skip_spaces s in
  let '(sign, body) :=
    match t with
    | String "-" r => (-1, r)
    | String "+" r => (1, r)
    | _ => (1, t)
    end in
  match read_digits body None with
  | Some n => Num (sign * n)
  | None => NaN
  end.

Definition string_of_Z (z : Z) : string := NilZero.string_of_int (Z.to_int z).

Definition join (sep : string) (l : list string) : string :=
  match l with
  | [] => EmptyString
  | x :: r => fold_left (fun acc y => (acc ++ sep ++ y)%string) r x
  end.

(** ToString *)
Fixpoint ToString (v : JsVal) : string :=
  match v with
  | JUndef => "undefined"
  | JNull => "null"
  | JBool true => "true"
  | JBool false => "false"
  | JNum NaN => "NaN"
  | JNum (Num z) => string_of_Z z
  | JStr s => s
  | JArr l =>
      join "," (map (fun x => match x with
                              | JUndef | JNull => EmptyString
                              | _ => ToString x
                              end) l)
  | JObj _ => "[object Object]"
  end.

Definition parseInt (v : JsVal) : JsNum := parseInt_string (ToString v).

(** [n || d] for a number [n] and a numeric default [d]: [NaN] and [0] are falsy. *)
Definition num_or (n : JsNum) (d : Z) : Z :=
  match n with
  | Num z => if (z =? 0)%Z then d else z
  | NaN => d
  end.

(** *** [Array.prototype.slice(start, end)] on integer arguments *)
Definition slice {A} (l : list A) (start stop : Z) : list A :=
  let len := Z.of_nat (length l) in
  let k := if start <? 0 then Z.max (len + start) 0 else Z.min start len in
  let final := if stop <? 0 then Z.max (len + stop) 0 else Z.min stop len in
  take (Z.to_nat (Z.max (final - k) 0)) (drop (Z.to_nat k) l).

(** *** [JSON.stringify] *)

Definition dquote : string := String (ascii_of_nat 34) EmptyString.
Definition backslash : string := String (ascii_of_nat 92) EmptyString.

Definition hex_digit (n : nat) : string :=
  String.substring n 1 "0123456789abcdef".

(** QuoteJSONString on one character (a byte of the UTF-8 text). *)
Definition escape_char (c : ascii) : string :=
  let n := nat_of_ascii c in
  if (n =? 34)%nat then (backslash ++ dquote)%string
  else if (n =? 92)%nat then (backslash ++ backslash)%string
  else if (n =? 8)%nat then (backslash ++ "b")%string
  else if (n =? 9)%nat then (backslash ++ "t")%string
  else if (n =? 10)%nat then (backslash ++ "n")%string
  else if (n =? 12)%nat then (backslash ++ "f")%string
  else if (n =? 13)%nat then (backslash ++ "r")%string
  else if (n <? 32)%nat
       then (backslash ++ "u00" ++ hex_digit (n / 16) ++ hex_digit (n mod 16))%string
  else String c EmptyString.

Fixpoint escape (s : string) : string :=
  match s with
  | EmptyString => EmptyString
  | String c r => (escape_char c ++ escape r)%string
  end.

Definition quote (s : string) : string := (dquote ++ escape s ++ dquote)%string.

(** SerializeJSONProperty for a value in a position where [undefined] is
    written [null] (an array element); a field whose value is [undefined]
    is left out of its object. *)
Fixpoint serialize (v : JsVal) : string :=
  match v with
  | JUndef | JNull => "null"
  | JBool true => "true"
  | JBool false => "false"
  | JNum NaN => "null"
  | JNum (Num z) => string_of_Z z
  | JStr s => quote s
  | JArr l => ("[" ++ join "," (map serialize l) ++ "]")%string
  | JObj fs =>
      ("{" ++ join "," (flat_map (fun kv : string * JsVal =>
                          let (k, x) := kv in
                          if is_undefined x then []
                          else [(quote k ++ ":" ++ serialize x)%string]) fs)
           ++ "}")%string
  end.

(** [JSON.stringify(v)]; [None] is the result [undefined]. *)
Definition JSON_stringify (v : JsVal) : option string :=
  match v with
  | JUndef => None
  | _ => Some (serialize v)
  end.

End JS.

(* ===================================================================== *)
(** ** CacheCore: stores with a time to live, global switch *)
(* ===================================================================== *)

Module CacheCore.
Import JS.

(** 30 minutes *)
Definition TTL_PADRAO_MS : Z := 30 * 60 * 1000.

(** The object [{ dados, expiracao }] kept under a key. *)
Record Entry (V : Type) : Type := mkEntry { dados : V; expiracao : Z }.
Arguments mkEntry {V} dados expiracao.
Arguments dados {V} e.
Arguments expiracao {V} e.

Section Helpers.
Context {K : Type} `{Countable K} {V : Type}.

(** [setComTTL(map, chave, dados, ttl = TTL_PADRAO_MS)] at instant [now];
    [ttl = None] is the omitted argument. *)
Definition setComTTL (map : gmap K (Entry V)) (chave : K) (dados : V)
    (ttl : option Z) (now : Z) : gmap K (Entry V) :=
  let expiracao := now + default TTL_PADRAO_MS ttl in
  <[chave := mkEntry dados expiracao]> map.

(** [getValido(map, chave)] at instant [now]: the value read ([None] is
    [null]) and the store it leaves. *)
Definition getValido (map : gmap K (Entry V)) (chave : K) (now : Z)
    : option V * gmap K (Entry V) :=
  match map !! chave with
  | None => (None, map)
  | Some entry =>
      if expiracao entry <? now
      then (None, delete chave map)
      else (Some (dados entry), map)
  end.
End Helpers.

(** The module's state: the switch and the four maps. A pending request of
    [inFlightRequests] is kept abstract as a [JsVal]. *)
Record State : Type := mkState {
  cacheAtivo : bool;
  resultadoCache : gmap string (Entry JsVal);
  sensorCache : gmap string (Entry JsVal);
  fireStatsCache : gmap string (Entry JsVal);
  inFlightRequests : gmap string JsVal
}.

(** State when the module is loaded. *)
Definition initial : State := mkState true ∅ ∅ ∅ ∅.

Definition isAtivo (s : State) : bool := cacheAtivo s.

Definition ativarCache (s : State) : State :=
  mkState true (resultadoCache s) (sensorCache s) (fireStatsCache s) (inFlightRequests s).

Definition desativarCache (s : State) : State :=
  mkState false (resultadoCache s) (sensorCache s) (fireStatsCache s) (inFlightRequests s).

Definition limparTodosCaches (s : State) : State :=
  mkState (cacheAtivo s) ∅ ∅ ∅ ∅.

(** The exported TTL stores a caller can hand to the helpers. *)
Inductive StoreRef : Type := ResultadoCache | SensorCache | FireStatsCache.

Definition store_of (r : StoreRef) (s : State) : gmap string (Entry JsVal) :=
  match r with
  | ResultadoCache => resultadoCache s
  | SensorCache => sensorCache s
  | FireStatsCache => fireStatsCache s
  end.

Definition with_store (r : StoreRef) (m : gmap string (Entry JsVal)) (s : State) : State :=
  match r with
  | ResultadoCache =>
      mkState (cacheAtivo s) m (sensorCache s) (fireStatsCache s) (inFlightRequests s)
  | SensorCache =>
      mkState (cacheAtivo s) (resultadoCache s) m (fireStatsCache s) (inFlightRequests s)
  | FireStatsCache =>
      mkState (cacheAtivo s) (resultadoCache s) (sensorCache s) m (inFlightRequests s)
  end.

(** [CacheCore.setComTTL(CacheCore.<r>, chave, dados, ttl)] on the module state. *)
Definition setComTTL_on (r : StoreRef) (chave : string) (dados : JsVal)
    (ttl : option Z) (now : Z) (s : State) : State :=
  with_store r (setComTTL (store_of r s) chave dados ttl now) s.

(** [CacheCore.getValido(CacheCore.<r>, chave)] on the module state. *)
Definition getValido_on (r : StoreRef) (chave : string) (now : Z) (s : State)
    : option JsVal * State :=
  let '(v, m) := getValido (store_of r s) chave now in (v, with_store r m s).

(** *** Key builders *)

(** [JSON.stringify({ sensor, bbox, dayRange, date })] *)
Definition gerarChaveSensor (sensor bbox dayRange date : JsVal) : string :=
  serialize (JObj [("sensor", sensor); ("bbox", bbox);
                   ("dayRange", dayRange); ("date", date)]).

(** [gerarChaveResultado({ dayRange, date, timeRange })]: the parameter is
    destructured (a TypeError on [undefined] and [null]) and an object
    rebuilt from the three names. *)
Definition gerarChaveResultado (arg : JsVal) : Res string :=
  bind (prop arg "dayRange") (fun dayRange =>
  bind (prop arg "date") (fun date =>
  bind (prop arg "timeRange") (fun timeRange =>
  Ok (serialize (JObj [("dayRange", dayRange); ("date", date);
                       ("timeRange", timeRange)]))))).

(** [JSON.stringify(query)] *)
Definition gerarChaveFireStats (query : JsVal) : option string :=
  JSON_stringify query.

End CacheCore.

(* ===================================================================== *)
(** ** FireService: listing, pagination, metadata, location enrichment *)
(* ===================================================================== *)

Module FireService.
Import JS.

(** The modules [FireService.js] imports and the clock it reads. None of
    them is part of the service; each is a parameter of the embedding. *)
Record Imports : Type := mkImports {
  (** [parseQuery(query)] of [#firms_utils/parseQuery.js]: the fields of
      the parsed-parameters object *)
  parseQuery : list (string * JsVal) -> list (string * JsVal);
  (** [await fetchFiresMT(options)] of [#firms_services/FireFetcher.js] *)
  fetchFiresMT : list (string * JsVal) -> Res JsVal;
  (** [FireModel.routeByFormat(firesRaw)] *)
  routeByFormat : list JsVal -> Res (list JsVal);
  (** [FireModel.sortFires(fires, sort)] *)
  sortFires : list JsVal -> JsVal -> list JsVal;
  (** [GeoMunicipalityMatcher.batchLocate(points)] *)
  batchLocate : list JsVal -> Res JsVal;
  (** [await MapboxReverseGeocoder.batchGeocode(points)] *)
  batchGeocode : list JsVal -> Res JsVal;
  (** [parseFloat(v)] *)
  parseFloat : JsVal -> JsVal;
  (** [new Date().toISOString()] *)
  toISOString_now : string
}.

(** Safety limit of the [all] parameter. *)
Definition MAX_RECORDS_ALL : Z := 10000.

(** The object [{ metadados, dados }] of a listing. *)
Record Listing : Type := mkListing {
  metadados : list (string * JsVal);
  dados : list JsVal
}.

(** *** Public helpers *)

Definition isNonEmptyArray (arr : JsVal) : bool :=
  match arr with
  | JArr l => 0 <? Z.of_nat (length l)
  | _ => false
  end.

Definition routeListAll (I : Imports) (firesRaw : JsVal) : Res (list JsVal) :=
  let isEmpty := negb (isNonEmptyArray firesRaw) in
  if isEmpty then Ok []
  else match firesRaw with
       | JArr l => routeByFormat I l
       | _ => Ok []
       end.

Definition listAll (I : Imports) (options : list (string * JsVal)) : Res (list JsVal) :=
  bind (fetchFiresMT I options) (fun firesRaw => routeListAll I firesRaw).

(** [parseInt(query.page, 10) || 1] *)
Definition parsePage (query : list (string * JsVal)) : Z :=
  num_or (parseInt (field query "page")) 1.

(** [parseInt(query.limit, 10) || 25] *)
Definition parseLimit (query : list (string * JsVal)) : Z :=
  num_or (parseInt (field query "limit")) 25.

Definition getPagedData (sorted : list JsVal) (page limit : Z) : list JsVal :=
  let start := (page - 1) * limit in
  let stop := start + limit in
  slice sorted start stop.

(** [limit <= 0] on a value that is a number *)
Definition le_zero (v : JsVal) : bool :=
  match v with
  | JNum (Num z) => z <=? 0
  | _ => false
  end.

Definition is_number (v : JsVal) : bool :=
  match typeof v with
  | TNumber => true
  | _ => false
  end.

(** [Math.ceil(n / d)] for an integer [n] and a positive integer [d] *)
Definition ceil_div (n d : Z) : Z := - ((- n) / d).

Definition getTotalPages (sorted : list JsVal) (limit : JsVal) : Z :=
  if negb (truthy limit) || negb (is_number limit) || le_zero limit then 0
  else match limit with
       | JNum (Num z) => ceil_div (Z.of_nat (length sorted)) z
       | _ => 0
       end.

(** *** Metadata *)

(** [query?.sort || 'sensor'] *)
Definition _getSort (query : list (string * JsVal)) : JsVal :=
  js_or (field query "sort") (JStr "sensor").

(** [None] is the result [undefined]. *)
Definition _getIntervaloHoras (params : list (string * JsVal))
    : option (list (string * JsVal)) :=
  let timeRange := field params "timeRange" in
  if negb (truthy timeRange)
     || negb (match typeof timeRange with TObject => true | _ => false end)
     || negb (truthy (opt_prop timeRange "start"))
     || negb (truthy (opt_prop timeRange "end"))
  then None
  else Some [("intervaloHoras",
              JObj [("inicio", opt_prop timeRange "start");
                    ("fim", opt_prop timeRange "end")])].

(** [{ ... , ...(o) }]: the fields of [o] written in turn over [fs]. *)
Definition spread_into (fs o : list (string * JsVal)) : list (string * JsVal) :=
  fold_left (fun acc kv => set_field acc (fst kv) (snd kv)) o fs.

Definition buildMetadata (I : Imports) (params query : list (string * JsVal))
    (total : Z) : list (string * JsVal) :=
  let intervalo := _getIntervaloHoras params in
  [("parametrosBusca",
    JObj (spread_into [("data", field params "date");
                       ("diasConsiderados", field params "dayRange");
                       ("ordenacao", _getSort query)]
                      (default [] intervalo)));
   ("timestampConsulta", JStr (toISOString_now I));
   ("totalFocos", JNum (Num total))].

(** *** Listing handlers *)

Definition isAllFiresRequested (query : list (string * JsVal)) : bool :=
  strict_eq_str (field query "all") "true" || strict_eq_true (field query "all").

Definition over_limit_message : string :=
  ("A requisição excede o limite de " ++ string_of_Z MAX_RECORDS_ALL
   ++ " registros. Refine seus filtros ou use paginação.")%string.

Definition getAllFiresNoPagination (I : Imports)
    (params query : list (string * JsVal)) : Res Listing :=
  bind (listAll I params) (fun fires =>
  if Z.of_nat (length fires) >? MAX_RECORDS_ALL
  then Throw (Error over_limit_message)
  else
    let firesFormatted := fires in
    let sorted := sortFires I firesFormatted (field query "sort") in
    Ok (mkListing
          (spread_into [] (buildMetadata I params query (Z.of_nat (length sorted))))
          sorted)).

Definition getPagedFires (I : Imports)
    (params query : list (string * JsVal)) : Res Listing :=
  let page := parsePage query in
  let limit := parseLimit query in
  bind (listAll I params) (fun fires =>
  let firesFormatted := fires in
  let sorted := sortFires I firesFormatted (field query "sort") in
  let pagedData := getPagedData sorted page limit in
  let totalPages := getTotalPages sorted (JNum (Num limit)) in
  Ok (mkListing
        (set_field
           (spread_into [] (buildMetadata I params query (Z.of_nat (length sorted))))
           "paginacao"
           (JObj [("paginaAtual", JNum (Num page));
                  ("itensPorPagina", JNum (Num limit));
                  ("totalPaginas", JNum (Num totalPages))]))
        pagedData)).

Definition chooseFireListHandler (I : Imports) (query : list (string * JsVal))
    : list (string * JsVal) -> list (string * JsVal) -> Res Listing :=
  if isAllFiresRequested query
  then getAllFiresNoPagination I
  else getPagedFires I.

Definition routeListAllFormattedPaginated (I : Imports)
    (query : list (string * JsVal)) : Res Listing :=
  let params := parseQuery I query in
  chooseFireListHandler I query params query.

Definition listAllFormattedPaginated (I : Imports)
    (query : list (string * JsVal)) : Res Listing :=
  routeListAllFormattedPaginated I query.

(** *** Location enrichment *)

(** Computations that may throw and that record, in order, the batches
    submitted to [MapboxReverseGeocoder.batchGeocode]. *)
Definition M (A : Type) : Type :=
  list (list JsVal) -> Res A * list (list JsVal).

Global Instance M_ret : MRet M := fun A a calls => (Ok a, calls).

Global Instance M_bind : MBind M := fun A B k m calls =>
  match m calls with
  | (Ok a, calls') => k a calls'
  | (Throw e, calls') => (Throw e, calls')
  end.

(** A computation without network call. *)
Definition lift {A} (r : Res A) : M A := fun calls => (r, calls).

(** [try { m } catch (err) { h err }] *)
Definition catch {A} (m : M A) (h : JsError -> M A) : M A := fun calls =>
  match m calls with
  | (Ok a, calls') => (Ok a, calls')
  | (Throw e, calls') => h e calls'
  end.

(** [await MapboxReverseGeocoder.batchGeocode(points)] *)
Definition geocode (I : Imports) (points : list JsVal) : M JsVal := fun calls =>
  (batchGeocode I points, (calls ++ [points])%list).

(** Result and geocoder batches of a computation started with no call made. *)
Definition run {A} (m : M A) : Res A * list (list JsVal) := m [].

(** [{ longitude: parseFloat(fire.longitude), latitude: parseFloat(fire.latitude),
      fireData: fire }] *)
Definition to_point (I : Imports) (fire : JsVal) : Res JsVal :=
  lon ← prop fire "longitude";
  lat ← prop fire "latitude";
  Ok (JObj [("longitude", parseFloat I lon);
            ("latitude", parseFloat I lat);
            ("fireData", fire)]).

(** [{ ...foco, localizacao: { ...foco.localizacao,
        cidade: foco.localizacao?.municipio || 'N/A' } }] *)
Definition with_cidade (foco : JsVal) : Res JsVal :=
  loc ← prop foco "localizacao";
  Ok (JObj (set_field (spread foco) "localizacao"
       (JObj (set_field (spread loc) "cidade"
          (js_or (opt_prop loc "municipio") (JStr "N/A")))))).

Definition addMunicipalityLocationData (I : Imports) (fires : list JsVal)
    : Res (list JsVal) :=
  points ← mapM (to_point I) fires;
  localizados ← batchLocate I points;
  arr ← as_array localizados;
  mapM with_cidade arr.

(** [f => !f.localizacao || f.localizacao.municipio === 'N/A'] *)
Definition sem_municipio (f : JsVal) : Res bool :=
  loc ← prop f "localizacao";
  if negb (truthy loc) then Ok true
  else m ← prop loc "municipio"; Ok (strict_eq_str m "N/A").

(** [f => f.localizacao && f.localizacao.municipio
          && f.localizacao.municipio !== 'N/A'] *)
Definition localizado (f : JsVal) : Res bool :=
  loc ← prop f "localizacao";
  if negb (truthy loc) then Ok false
  else m ← prop loc "municipio";
       if negb (truthy m) then Ok false
       else Ok (negb (strict_eq_str m "N/A")).

(** [{ ...item.fireData, localizacao: item.localizacao }] *)
Definition from_geocoder (item : JsVal) : Res JsVal :=
  fireData ← prop item "fireData";
  loc ← prop item "localizacao";
  Ok (JObj (set_field (spread fireData) "localizacao" loc)).

(** The body of the [try] block. *)
Definition primary (I : Imports) (fires : list JsVal) : Res (list JsVal) :=
  located ← addMunicipalityLocationData I fires;
  naCount ← count_if sem_municipio located;
  allLocated ← every localizado located;
  if negb allLocated
  then Throw (Error "GeoJSON incompleto ou inválido (há focos sem município)")
  else Ok located.

(** The body of the [catch] block. *)
Definition fallback (I : Imports) (fires : list JsVal) : M (list JsVal) :=
  points ← lift (mapM (to_point I) fires);
  locations ← geocode I points;
  arr ← lift (as_array locations);
  naCount ← lift (count_if sem_municipio arr);
  lift (mapM from_geocoder arr).

Definition addLocationData (I : Imports) (fires : list JsVal) : M (list JsVal) :=
  catch (lift (primary I fires)) (fun err => fallback I fires).

(** The object [{ metadados, firesWithLocation }]. *)
Record Located : Type := mkLocated {
  loc_metadados : list (string * JsVal);
  firesWithLocation : list JsVal
}.

Definition listAllWithLocation (I : Imports) (query : list (string * JsVal))
    : M Located :=
  r ← lift (listAllFormattedPaginated I (set_field (spread_into [] query) "all" (JBool true)));
  firesWithLocation ← addLocationData I (dados r);
  mret (mkLocated (metadados r) firesWithLocation).

End FireService.

(* ===================================================================== *)
(** ** In-flight request registry *)
(* ===================================================================== *)

Module InFlight.
Import JS.

(** A pending computation registered under a key: the ticket that names it
    and the callers awaiting it, in arrival order. *)
Record Pending : Type := mkPending {
  ticket : nat;
  waiters : list nat
}.

(** State of the registry and what an observer records around it:
    [registry] is the map [CacheCore.inFlightRequests]; [invoked] lists the
    factory calls made (key and factory, in order); [delivered] lists the
    outcomes handed to callers (caller and outcome, in order). *)
Record State : Type := mkState {
  registry : gmap string Pending;
  invoked : list (string * nat);
  delivered : list (nat * Res JsVal)
}.




(** What can happen between two suspension points of the event loop. *)
Inductive Event : Type :=
| Call (caller : nat) (key : string) (factory : nat)
| Settle (key : string) (outcome : Res JsVal).




(** The callers of [getOrCreate] on [key] in a trace, in order. *)
Fixpoint callers_of (key : string) (evs : list Event) : list nat :=
  match evs with
  | [] => []
  | Call c k _ :: r => if decide (k = key) then c :: callers_of key r else callers_of key r
  | Settle _ _ :: r => callers_of key r
  end.

(** The factory handed over by the first call on [key] in a trace. *)
Fixpoint first_factory (key : string) (evs : list Event) : option nat :=
  match evs with
  | [] => None
  | Call _ k f :: r => if decide (k = key) then Some f else first_factory key r
  | Settle _ _ :: r => first_factory key r
  end.


End InFlight.

(* ===================================================================== *)
(** ** Vocabulary of the statements and sample data *)
(* ===================================================================== *)

Module Terms.
Import JS FireService.

(** [undefined] or [null] *)
Definition nullish (v : JsVal) : bool :=
  match v with
  | JUndef | JNull => true
  | _ => false
  end.

(** The point built from a record that is not nullish. *)
Definition point_of (I : Imports) (fire : JsVal) : JsVal :=
  JObj [("longitude", parseFloat I (opt_prop fire "longitude"));
        ("latitude", parseFloat I (opt_prop fire "latitude"));
        ("fireData", fire)].

(** [r.localizacao.municipio] and [r.localizacao.cidade], [undefined] when
    a link of the chain is missing. *)
Definition municipio_of (r : JsVal) : JsVal :=
  opt_prop (opt_prop r "localizacao") "municipio".

Definition cidade_of (r : JsVal) : JsVal :=
  opt_prop (opt_prop r "localizacao") "cidade".

(** A record the matcher resolved: it carries a municipality other than ['N/A']. *)
Definition resolved (foco : JsVal) : bool :=
  truthy (municipio_of foco) && negb (strict_eq_str (municipio_of foco) "N/A").

(** The record [addMunicipalityLocationData] makes of a matcher item
    that is not nullish. *)
Definition padronizado (foco : JsVal) : JsVal :=
  JObj (set_field (spread foco) "localizacao"
     (JObj (set_field (spread (opt_prop foco "localizacao")) "cidade"
        (js_or (municipio_of foco) (JStr "N/A"))))).

(** What the [catch] block of [addLocationData] does with the answer of
    the geocoder. *)
Definition after_geocode (locations : JsVal) : Res (list JsVal) :=
  arr ← as_array locations;
  naCount ← count_if sem_municipio arr;
  mapM from_geocoder arr.

(** A non-empty string *)
Definition non_empty_string (v : JsVal) : Prop :=
  exists s, v = JStr s /\ s <> EmptyString.


End Terms.

Module Samples.
Import JS FireService Terms.

Definition fire (sensor lat lon : string) : JsVal :=
  JObj [("latitude", JStr lat); ("longitude", JStr lon); ("sensor", JStr sensor)].

Definition three_fires : list JsVal :=
  [fire "MODIS" "-15.60" "-56.10"; fire "VIIRS" "-12.55" "-55.72";
   fire "VIIRS" "-11.86" "-55.50"].

(** [n] records told apart by their [id]. *)
Definition numbered (n : nat) : list JsVal :=
  map (fun i => JObj [("id", JNum (Num (Z.of_nat i)))]) (seq 0 n).

(** The matcher's answer for a point resolved to [municipio]. *)
Definition matched (municipio : string) (p : JsVal) : JsVal :=
  JObj (set_field (spread p) "localizacao"
          (JObj [("municipio", JStr municipio); ("comandoRegional", JStr "CR I")])).

(** Collaborators for the examples: the identity for [parseQuery],
    [routeByFormat], [sortFires] and [parseFloat], a fetch that returns
    [raw], a matcher that answers [locate] and a geocoder that answers
    [geocode]. *)
Definition imports (raw : list JsVal) (locate geocode : list JsVal -> Res JsVal)
    : Imports :=
  mkImports (fun q => q) (fun _ => Ok (JArr raw)) (fun l => Ok l) (fun l _ => l)
            locate geocode (fun v => v) "2024-06-06T12:00:00.000Z".

Definition locate_all (pts : list JsVal) : Res JsVal :=
  Ok (JArr (map (matched "Sorriso") pts)).

(** A matcher that leaves the first point at ['N/A']. *)
Definition locate_all_but_first (pts : list JsVal) : Res JsVal :=
  match pts with
  | [] => Ok (JArr [])
  | p :: r => Ok (JArr (matched "N/A" p :: map (matched "Sorriso") r))
  end.

(** A geocoder whose items carry the source record and no [localizacao]. *)
Definition geocode_bare (pts : list JsVal) : Res JsVal :=
  Ok (JArr (map (fun p => JObj [("fireData", opt_prop p "fireData")]) pts)).

Definition geocode_down (pts : list JsVal) : Res JsVal :=
  Throw (Error "Request failed with status code 429").

End Samples.

(* ===================================================================== *)
(** ** Dashboard services: the callers of the listing endpoints *)
(* ===================================================================== *)

Module Frontend.
Import JS Terms.

(** What [utils/api.js] and [services/locationService.js] take from the
    platform and from other modules. *)
Record Imports : Type := mkImports {
  API_BASE_URL : string;
  (** [new URL(href)], [searchParams.append(k, v)] for each pair in turn,
      then [url.toString()]; a TypeError when [href] is no URL *)
  url_toString : string -> list (string * string) -> Res string;
  (** [await fetch(url)] then [await res.json()], the body of [buscarJson] *)
  fetch_json : string -> Res JsVal;
  (** [str.normalize('NFD').replace(/[\u0300-\u036f]/g, '').toLowerCase().trim()]
      on a string *)
  fold_name : string -> string;
  (** [new Date().toISOString().split('T')[0]], the body of [obterDataDeHoje] *)
  hoje : string
}.

(** [try { m } catch (error) { h error }] *)
Definition try_catch {A} (m : Res A) (h : JsError -> Res A) : Res A :=
  match m with
  | Ok a => Ok a
  | Throw e => h e
  end.

(** [Array.isArray(v)] *)
Definition isArray (v : JsVal) : bool :=
  match v with
  | JArr _ => true
  | _ => false
  end.

(** [v[i]] on a value that is not nullish *)
Definition index (v : JsVal) (i : nat) : JsVal :=
  match v with
  | JArr l => nth i l JUndef
  | JStr s => match String.get i s with
              | Some c => JStr (String c EmptyString)
              | None => JUndef
              end
  | JObj fs => field fs (string_of_Z (Z.of_nat i))
  | _ => JUndef
  end.

(** [arr.find(p)]: the first element that passes [p]; [None] is [undefined]. *)
Fixpoint find (p : JsVal -> Res bool) (l : list JsVal) : Res (option JsVal) :=
  match l with
  | [] => Ok None
  | x :: r => b ← p x; if b : bool then Ok (Some x) else find p r
  end.

(** *** [utils/api.js] *)

(** The pairs kept by [if (valor != null)], with the text [append] writes. *)
Definition query_pairs (params : list (string * JsVal)) : list (string * string) :=
  omap (fun kv : string * JsVal =>
          if nullish (snd kv) then None else Some (fst kv, ToString (snd kv)))
       params.

Definition montarUrl (F : Imports) (endpoint : string) (params : list (string * JsVal))
    : Res string :=
  url_toString F (API_BASE_URL F ++ endpoint)%string (query_pairs params).

Definition buscarJson (F : Imports) (url : string) : Res JsVal := fetch_json F url.

Definition buscarFocos (F : Imports) (dataISO : JsVal) : Res JsVal :=
  try_catch
    (url ← montarUrl F "/api/firms/fires" [("dt", dataISO); ("all", JBool true)];
     json ← buscarJson F url;
     if negb (truthy json) then Ok (JArr [])
     else dados ← prop json "dados";
          if negb (truthy dados) then Ok (JArr []) else prop json "dados")
    (fun error => Ok (JArr [])).

(** *** [services/locationService.js] *)

Definition FIRE_LOCATIONS : string := "/api/firms/fires/locations".

Definition dadosSaoValidos (json : JsVal) : bool := isArray (opt_prop json "dados").

Definition extrairDadosOuVazio (json : JsVal) : Res JsVal :=
  if dadosSaoValidos json then prop json "dados" else Ok (JArr []).

Definition buscarFocosComLocalizacao (F : Imports) : Res JsVal :=
  try_catch
    (url ← montarUrl F FIRE_LOCATIONS [("dt", JStr (hoje F))];
     json ← buscarJson F url;
     extrairDadosOuVazio json)
    (fun error => Ok (JArr [])).

(** [normalizeString(str)]: the empty string for a falsy argument, a
    TypeError for a truthy one that is no string (it has no [normalize]). *)
Definition normalizeString (F : Imports) (str : JsVal) : Res string :=
  if truthy str
  then match str with
       | JStr s => Ok (fold_name F s)
       | _ => Throw (TypeError "str.normalize is not a function")
       end
  else Ok EmptyString.

(** [f => f.localizacao && f.localizacao.cidade
          && normalizeString(f.localizacao.cidade) === nomeCidadeNorm] *)
Definition mesma_cidade (F : Imports) (nomeCidadeNorm : string) (f : JsVal) : Res bool :=
  loc ← prop f "localizacao";
  if negb (truthy loc) then Ok false
  else cidade ← prop loc "cidade";
       if negb (truthy cidade) then Ok false
       else n ← normalizeString F cidade; Ok (String.eqb n nomeCidadeNorm).

(** [f => f.properties?.feature_type === 'place'] *)
Definition is_place (f : JsVal) : Res bool :=
  props ← prop f "properties";
  Ok (strict_eq_str (opt_prop props "feature_type") "place").

(** [{ lat: foco.latitude, lng: foco.longitude }] *)
Definition own_coordinates (foco : JsVal) : JsVal :=
  JObj [("lat", opt_prop foco "latitude"); ("lng", opt_prop foco "longitude")].

Definition encontrarCoordenadasCidade (F : Imports) (focos : list JsVal)
    (nomeCidade : JsVal) : Res JsVal :=
  nomeCidadeNorm ← normalizeString F nomeCidade;
  found ← find (mesma_cidade F nomeCidadeNorm) focos;
  match found with
  | None => Ok JNull
  | Some foco =>
      if negb (truthy foco) then Ok JNull
      else
        let features :=
          opt_prop (opt_prop (opt_prop foco "localizacao") "outros_dados") "features" in
        match features with
        | JArr fl =>
            featCidade ← find is_place fl;
            match featCidade with
            | Some feat =>
                let coordinates := opt_prop (opt_prop feat "geometry") "coordinates" in
                if truthy feat && truthy coordinates
                then Ok (JObj [("lat", index coordinates 1); ("lng", index coordinates 0)])
                else Ok (own_coordinates foco)
            | None => Ok (own_coordinates foco)
            end
        | _ => Ok (own_coordinates foco)
        end
  end.

(** *** [services/weeklyService.js] *)

Definition FIRE_WEEKLY_STATS : string := "/api/firms/fires/weekly-stats".

Definition buscarDadosSemanais (F : Imports) : Res JsVal :=
  try_catch
    (url ← montarUrl F FIRE_WEEKLY_STATS [];
     json ← buscarJson F url;
     if isArray (opt_prop json "dadosDiarios") then prop json "dadosDiarios"
     else Ok (JArr []))
    (fun error => Ok (JArr [])).

End Frontend.

(* ===================================================================== *)
(** ** More vocabulary and sample data *)
(* ===================================================================== *)

Module Terms2.
Import JS FireService Terms.

(** The query [{ ...query, all: true }] that [listAllWithLocation] submits. *)
Definition with_all (query : list (string * JsVal)) : list (string * JsVal) :=
  set_field (spread_into [] query) "all" (JBool true).

(** The pages [1 .. count] of a list, one after the other. *)
Definition pages_in_order (sorted : list JsVal) (limit : Z) (count : nat)
    : list JsVal :=
  concat (map (fun i : nat => getPagedData sorted (Z.of_nat i + 1) limit) (seq 0 count)).

(** The names of the own fields of an object. *)
Definition keys (fs : list (string * JsVal)) : list string := map fst fs.

(** [timeRange] is an object whose [start] and [end] are both truthy. *)
Definition has_interval (params : list (string * JsVal)) : bool :=
  let timeRange := field params "timeRange" in
  truthy timeRange
  && match typeof timeRange with TObject => true | _ => false end
  && truthy (opt_prop timeRange "start")
  && truthy (opt_prop timeRange "end").

(** The municipality of a matcher item is a string, or is missing. *)
Definition municipio_typed (foco : JsVal) : Prop :=
  typeof (municipio_of foco) = TString \/ municipio_of foco = JUndef.

(** The number written by the digits [d] after the digits that gave [acc]. *)
Fixpoint digits_value (d : Decimal.uint) (acc : Z) : Z :=
  match d with
  | Decimal.Nil => acc
  | Decimal.D0 r => digits_value r (10 * acc)
  | Decimal.D1 r => digits_value r (10 * acc + 1)
  | Decimal.D2 r => digits_value r (10 * acc + 2)
  | Decimal.D3 r => digits_value r (10 * acc + 3)
  | Decimal.D4 r => digits_value r (10 * acc + 4)
  | Decimal.D5 r => digits_value r (10 * acc + 5)
  | Decimal.D6 r => digits_value r (10 * acc + 6)
  | Decimal.D7 r => digits_value r (10 * acc + 7)
  | Decimal.D8 r => digits_value r (10 * acc + 8)
  | Decimal.D9 r => digits_value r (10 * acc + 9)
  end.

(** A text that can follow a number: empty, or starting with a character
    that is no decimal digit. *)
Definition ends_number (sfx : string) : Prop :=
  match sfx with
  | EmptyString => True
  | String c _ => digit_of c = None
  end.

(** Value of a lower-case hexadecimal digit. *)
Definition hex_value (c : ascii) : option nat :=
  let n := nat_of_ascii c in
  if ((48 <=? n) && (n <=? 57))%nat then Some (n - 48)%nat
  else if ((97 <=? n) && (n <=? 102))%nat then Some (n - 87)%nat
  else None.

(** Reads back the first character written by [escape_char] at the head of
    a text, with the text that follows it. *)
Definition unescape_head (s : string) : option (ascii * string) :=
  match s with
  | EmptyString => None
  | String c r =>
      if (nat_of_ascii c =? 92)%nat
      then match r with
           | EmptyString => None
           | String x r' =>
               let n := nat_of_ascii x in
               if (n =? 34)%nat then Some (ascii_of_nat 34, r')
               else if (n =? 92)%nat then Some (ascii_of_nat 92, r')
               else if (n =? 98)%nat then Some (ascii_of_nat 8, r')
               else if (n =? 116)%nat then Some (ascii_of_nat 9, r')
               else if (n =? 110)%nat then Some (ascii_of_nat 10, r')
               else if (n =? 102)%nat then Some (ascii_of_nat 12, r')
               else if (n =? 114)%nat then Some (ascii_of_nat 13, r')
               else match r' with
                    | String _ (String _ (String h (String l r''))) =>
                        match hex_value h, hex_value l with
                        | Some a, Some b => Some (ascii_of_nat (16 * a + b), r'')
                        | _, _ => None
                        end
                    | _ => None
                    end
           end
      else Some (c, r)
  end.

End Terms2.

Module Samples2.
Import JS FireService Terms Samples.

(** Collaborators whose fetch fails. *)
Definition imports_fetch_down : Imports :=
  mkImports (fun q => q) (fun _ => Throw (Error "timeout of 10000ms exceeded"))
            (fun l => Ok l) (fun l _ => l) locate_all geocode_bare
            (fun v => v) "2024-06-06T12:00:00.000Z".

(** A dashboard whose server answers [json] to every request. *)
Definition dashboard (json : Res JsVal) : Frontend.Imports :=
  Frontend.mkImports "http://localhost:4001"
    (fun href pairs =>
       Ok (href ++ "?" ++ join "&" (map (fun kv => (fst kv ++ "=" ++ snd kv)%string) pairs))%string)
    (fun _ => json) (fun s => s) "2024-06-06".

Definition located_fire (cidade lat lon : string) : JsVal :=
  JObj [("latitude", JStr lat); ("longitude", JStr lon);
        ("localizacao", JObj [("cidade", JStr cidade)])].

End Samples2.

(* ===================================================================== *)
(** ** Properties of CacheCore *)
(* ===================================================================== *)

Import JS.

Section CacheCoreProps.
Import CacheCore.
Context {K : Type} `{Countable K} {V : Type}.
Implicit Types (m : gmap K (Entry V)) (k : K) (v : V).

Lemma getValido_absent m k now :
  m !! k = None -> getValido m k now = (None, m).
Proof. intros Hm. unfold getValido. by rewrite Hm. Qed.

Lemma getValido_fresh m k e now :
  m !! k = Some e -> now <= expiracao e ->
  getValido m k now = (Some (dados e), m).
Proof.
  intros Hm Hle. unfold getValido. rewrite Hm.
  destruct (Z.ltb_spec (expiracao e) now); [lia | done].
Qed.

Lemma getValido_stale m k e now :
  m !! k = Some e -> expiracao e < now ->
  getValido m k now = (None, delete k m).
Proof.
  intros Hm Hlt. unfold getValido. rewrite Hm.
  destruct (Z.ltb_spec (expiracao e) now); [done | lia].
Qed.

Lemma setComTTL_lookup m k v ttl now :
  setComTTL m k v ttl now !! k = Some (mkEntry v (now + default TTL_PADRAO_MS ttl)).
Proof. unfold setComTTL. apply lookup_insert_eq. Qed.

Lemma setComTTL_lookup_ne m k k' v ttl now :
  k <> k' -> setComTTL m k v ttl now !! k' = m !! k'.
Proof. intros Hne. unfold setComTTL. by apply lookup_insert_ne. Qed.

(** A read never returns an entry past its expiration instant. *)
Lemma getValido_never_stale m k now v :
  fst (getValido m k now) = Some v ->
  exists e, m !! k = Some e /\ dados e = v /\ now <= expiracao e.
Proof.
  unfold getValido. destruct (m !! k) as [e|] eqn:Hm; [|done].
  destruct (Z.ltb_spec (expiracao e) now); [done|].
  simpl. intros [= <-]. eauto.
Qed.

(** C1. For every key [k], value [v] and ttl [t > 0]: right after
    [setComTTL(store, k, v, t)] (and up to the expiration instant, write
    time + [t]) [getValido(store, k)] returns [v] and leaves the store as
    it is; any [getValido(store, k)] made strictly after the expiration
    instant returns [null] and deletes the stale entry, whether it reads
    the store just written or any later store that still holds the entry. *)
Theorem setComTTL_then_getValido m k v (t now : Z) :
  0 < t ->
  let m1 := setComTTL m k v (Some t) now in
  getValido m1 k now = (Some v, m1)
  /\ (forall now', now <= now' <= now + t -> getValido m1 k now' = (Some v, m1))
  /\ (forall now', now + t < now' ->
        getValido m1 k now' = (None, delete k m1) /\ delete k m1 !! k = None)
  /\ (forall m' now', m' !! k = Some (mkEntry v (now + t)) -> now + t < now' ->
        fst (getValido m' k now') = None /\ snd (getValido m' k now') !! k = None).
Proof.
  intros Ht m1.
  assert (Hm1 : m1 !! k = Some (mkEntry v (now + t))) by apply setComTTL_lookup.
  split; [|split; [|split]].
  - rewrite (getValido_fresh _ _ _ _ Hm1); [done | simpl; lia].
  - intros now' Hn. rewrite (getValido_fresh _ _ _ _ Hm1); [done | simpl; lia].
  - intros now' Hn. split; [|apply lookup_delete_eq].
    rewrite (getValido_stale _ _ _ _ Hm1); [done | simpl; lia].
  - intros m' now' Hm' Hn.
    rewrite (getValido_stale _ _ _ _ Hm'); [|simpl; lia].
    split; [done | apply lookup_delete_eq].
Qed.
End CacheCoreProps.

Lemma setComTTL_then_getValido_witness :
  0 < 1000 /\
  CacheCore.getValido
    (CacheCore.setComTTL (∅ : gmap string (CacheCore.Entry JsVal)) "k" (JStr "v") (Some 1000) 5)
    "k" 2000 =
  (None, delete "k"
     (CacheCore.setComTTL (∅ : gmap string (CacheCore.Entry JsVal)) "k" (JStr "v") (Some 1000) 5)).
Proof.
  split; [lia |].
  apply (setComTTL_then_getValido (∅ : gmap string (CacheCore.Entry JsVal))
           "k" (JStr "v") 1000 5); lia.
Defined.

Section CacheSwitch.
Import CacheCore.

Lemma store_of_with_store r m s : store_of r (with_store r m s) = m.
Proof. by destruct r. Qed.

Lemma store_of_desativarCache r s : store_of r (desativarCache s) = store_of r s.
Proof. by destruct r. Qed.

Lemma store_of_ativarCache r s : store_of r (ativarCache s) = store_of r s.
Proof. by destruct r. Qed.

Lemma getValido_on_fst r k now s :
  fst (getValido_on r k now s) = fst (getValido (store_of r s) k now).
Proof. unfold getValido_on. by destruct (getValido (store_of r s) k now). Qed.

(** C2, as stated, fails: the switch is off, and a read of an entry
    written during the disabled period returns the value, not [null]. *)
Lemma getValido_ignores_switch :
  ~ (forall s r k now, isAtivo s = false -> fst (getValido_on r k now s) = None).
Proof.
  intros Hclaim.
  specialize (Hclaim
    (setComTTL_on ResultadoCache "k" (JStr "v") (Some 1000) 0 (desativarCache initial))
    ResultadoCache "k" 1 eq_refl).
  vm_compute in Hclaim. discriminate.
Qed.

(** C2, amended. [desativarCache] and [ativarCache] only set the flag that
    [isAtivo] reports; [getValido] and [setComTTL] never read it. While
    the cache is disabled a read returns exactly what it returns when
    enabled (the unexpired value, not [null]); a write made while disabled
    is stored, and is read back both before and after re-enabling. *)
Theorem switch_is_a_flag_only s r k now :
  isAtivo (desativarCache s) = false
  /\ isAtivo (ativarCache (desativarCache s)) = true
  /\ fst (getValido_on r k now (desativarCache s)) = fst (getValido_on r k now s)
  /\ (forall v t now', 0 < t -> now <= now' <= now + t ->
        let s1 := setComTTL_on r k v (Some t) now (desativarCache s) in
        isAtivo s1 = false
        /\ fst (getValido_on r k now' s1) = Some v
        /\ fst (getValido_on r k now' (ativarCache s1)) = Some v).
Proof.
  split; [done | split; [done | split]].
  - by rewrite !getValido_on_fst, store_of_desativarCache.
  - intros v t now' Ht Hn s1. split; [by destruct r | split].
    + rewrite getValido_on_fst. unfold s1, setComTTL_on.
      rewrite store_of_with_store.
      rewrite (getValido_fresh _ _ (mkEntry v (now + t)));
        [done | apply setComTTL_lookup | simpl; lia].
    + rewrite getValido_on_fst, store_of_ativarCache. unfold s1, setComTTL_on.
      rewrite store_of_with_store.
      rewrite (getValido_fresh _ _ (mkEntry v (now + t)));
        [done | apply setComTTL_lookup | simpl; lia].
Qed.
End CacheSwitch.

(* ===================================================================== *)
(** ** Properties of the key builders *)
(* ===================================================================== *)

Section KeyBuilders.
Import CacheCore.

Lemma NoDup_keys_Permutation (fs1 fs2 : list (string * JsVal)) :
  Permutation fs1 fs2 -> NoDup (map fst fs1) -> NoDup (map fst fs2).
Proof.
  intros Hp Hn. by rewrite <-(Permutation_map fst Hp).
Qed.

Lemma field_not_in (fs : list (string * JsVal)) k :
  k ∉ map fst fs -> field fs k = JUndef.
Proof.
  induction fs as [|[k' v] fs IH]; simpl; [done|].
  intros Hni. destruct (String.eqb_spec k' k) as [->|Hne].
  - exfalso. apply Hni. left.
  - apply IH. intros Hin. apply Hni. by right.
Qed.

(** Reading a field by name does not depend on the insertion order. *)
Lemma field_Permutation (fs1 fs2 : list (string * JsVal)) k :
  Permutation fs1 fs2 -> NoDup (map fst fs1) -> field fs1 k = field fs2 k.
Proof.
  induction 1 as [|[k1 v1] l l' Hp IH|[k1 v1] [k2 v2] l|l l' l'' Hp1 IH1 Hp2 IH2];
    intros Hnd.
  - done.
  - simpl in *. apply NoDup_cons in Hnd as [_ Hnd].
    destruct (String.eqb k1 k); [done | by apply IH].
  - simpl in *. apply NoDup_cons in Hnd as [Hni _].
    destruct (String.eqb_spec k2 k) as [->|]; [|done].
    destruct (String.eqb_spec k1 k) as [->|]; [|done].
    exfalso. apply Hni. left.
  - rewrite IH1 by done. apply IH2. by eapply NoDup_keys_Permutation.
Qed.

(** C8, as stated, fails: two queries with the same fields and values in
    a different insertion order get different [gerarChaveFireStats] keys. *)
Lemma gerarChaveFireStats_depends_on_order :
  ~ (forall fs1 fs2 : list (string * JsVal),
       NoDup (map fst fs1) -> Permutation fs1 fs2 ->
       gerarChaveFireStats (JObj fs1) = gerarChaveFireStats (JObj fs2)).
Proof.
  intros Hclaim.
  specialize (Hclaim [("dt", JStr "2024-06-06"); ("dr", JStr "1")]
                     [("dr", JStr "1"); ("dt", JStr "2024-06-06")]).
  assert (Hnd : NoDup (map fst [("dt", JStr "2024-06-06"); ("dr", JStr "1")])).
  { simpl. apply NoDup_cons. split; [|apply NoDup_singleton].
    intros Hin. apply list_elem_of_singleton in Hin. discriminate. }
  specialize (Hclaim Hnd (perm_swap _ _ _)).
  vm_compute in Hclaim. discriminate.
Qed.

(** The same holds below the top level: [gerarChaveResultado] rebuilds
    its object, not the [timeRange] inside it. *)
Lemma gerarChaveResultado_depends_on_nested_order :
  gerarChaveResultado
    (JObj [("date", JStr "2024-06-06");
           ("timeRange", JObj [("start", JStr "00:00"); ("end", JStr "06:00")])])
  <> gerarChaveResultado
    (JObj [("date", JStr "2024-06-06");
           ("timeRange", JObj [("end", JStr "06:00"); ("start", JStr "00:00")])]).
Proof. vm_compute. discriminate. Qed.

(** C8, amended. For two queries that hold the same fields with the same
    values in a different top-level insertion order, [gerarChaveResultado]
    produces equal keys, and so does [gerarChaveSensor] on the parameters
    read from them: both rebuild their object with the names in a fixed
    order. (Nothing is said of [gerarChaveFireStats], which serialises the
    query as it is, nor of the order inside nested values.) *)
Theorem rebuilt_keys_ignore_field_order (fs1 fs2 : list (string * JsVal)) :
  NoDup (map fst fs1) -> Permutation fs1 fs2 ->
  gerarChaveResultado (JObj fs1) = gerarChaveResultado (JObj fs2)
  /\ gerarChaveSensor (field fs1 "sensor") (field fs1 "bbox")
                      (field fs1 "dayRange") (field fs1 "date")
     = gerarChaveSensor (field fs2 "sensor") (field fs2 "bbox")
                        (field fs2 "dayRange") (field fs2 "date").
Proof.
  intros Hnd Hp. split.
  - unfold gerarChaveResultado. simpl.
    by rewrite !(field_Permutation fs1 fs2) by done.
  - by rewrite !(field_Permutation fs1 fs2) by done.
Qed.
End KeyBuilders.

Lemma rebuilt_keys_ignore_field_order_witness :
  CacheCore.gerarChaveResultado
    (JObj [("date", JStr "2024-06-06"); ("dayRange", JNum (Num 1))])
  = CacheCore.gerarChaveResultado
    (JObj [("dayRange", JNum (Num 1)); ("date", JStr "2024-06-06")]).
Proof.
  refine (proj1 (rebuilt_keys_ignore_field_order
                   [("date", JStr "2024-06-06"); ("dayRange", JNum (Num 1))]
                   [("dayRange", JNum (Num 1)); ("date", JStr "2024-06-06")] _ _)).
  - simpl. apply NoDup_cons. split; [|apply NoDup_singleton].
    intros Hin. apply list_elem_of_singleton in Hin. discriminate.
  - apply perm_swap.
Defined.

(* ===================================================================== *)
(** ** Properties of the listing handlers *)
(* ===================================================================== *)

Section Listing.
Import FireService Terms.
Implicit Types (I : Imports) (query params : list (string * JsVal))
               (sorted fires : list JsVal).

(** *** [slice] *)

(** With a start that is not negative and a positive count, [slice] is
    the window of [count] elements from [start], cut at the end of the list. *)
Lemma slice_from_start {A} (l : list A) (start count : Z) :
  0 <= start -> 0 <= count ->
  slice l start (start + count) = take (Z.to_nat count) (drop (Z.to_nat start) l).
Proof.
  intros Hs Hc. unfold slice.
  set (len := Z.of_nat (length l)).
  destruct (Z.ltb_spec start 0); [lia|].
  destruct (Z.ltb_spec (start + count) 0); [lia|].
  destruct (Z.le_gt_cases start len) as [Hin|Hout].
  - rewrite (Z.min_l start len) by lia.
    destruct (Z.le_gt_cases (start + count) len).
    + rewrite Z.min_l, Z.max_l by lia. f_equal. lia.
    + rewrite Z.min_r, Z.max_l by lia.
      rewrite !take_ge; [done | |]; rewrite length_drop; unfold len in *; lia.
  - rewrite (Z.min_r start len), Z.min_r by lia.
    rewrite !drop_ge; [by rewrite !take_nil | |]; unfold len in *; lia.
Qed.

(** With a negative start and a negative end, [slice] counts both from
    the end of the list and stops at its beginning. *)
Lemma slice_from_end {A} (l : list A) (start stop : Z) :
  start < 0 -> stop < 0 ->
  let len := Z.of_nat (length l) in
  let lo := Z.max (len + start) 0 in
  let hi := Z.max (len + stop) 0 in
  slice l start stop = take (Z.to_nat (Z.max (hi - lo) 0)) (drop (Z.to_nat lo) l).
Proof.
  intros Hs He len lo hi. unfold slice. fold len.
  destruct (Z.ltb_spec start 0); [|lia].
  destruct (Z.ltb_spec stop 0); [|lia]. done.
Qed.

Lemma lookup_window {A} (l : list A) (start count i : nat) :
  take count (drop start l) !! i
  = if decide (i < count)%nat then l !! (start + i)%nat else None.
Proof.
  case_decide.
  - rewrite lookup_take_lt by done. apply lookup_drop.
  - apply lookup_take_ge. lia.
Qed.

(** *** [Math.ceil] of a quotient *)
Lemma ceil_div_spec (n d : Z) :
  0 < d -> (ceil_div n d - 1) * d < n <= ceil_div n d * d.
Proof.
  intros Hd. unfold ceil_div.
  pose proof (Z.div_mod (- n) d ltac:(lia)) as Hdm.
  pose proof (Z.mod_pos_bound (- n) d Hd) as Hb.
  nia.
Qed.

Lemma ceil_div_unique (n d c : Z) :
  0 < d -> (c - 1) * d < n <= c * d -> ceil_div n d = c.
Proof.
  intros Hd Hc. pose proof (ceil_div_spec n d Hd) as Hs. nia.
Qed.

(** *** [parsePage], [parseLimit] *)

Lemma parsePage_cases query :
  match parseInt (field query "page") with
  | Num z => if (z =? 0)%Z then parsePage query = 1 else parsePage query = z
  | NaN => parsePage query = 1
  end.
Proof.
  unfold parsePage. destruct (parseInt _) as [|z]; simpl; [done|].
  by destruct (z =? 0)%Z.
Qed.

Lemma parseLimit_cases query :
  match parseInt (field query "limit") with
  | Num z => if (z =? 0)%Z then parseLimit query = 25 else parseLimit query = z
  | NaN => parseLimit query = 25
  end.
Proof.
  unfold parseLimit. destruct (parseInt _) as [|z]; simpl; [done|].
  by destruct (z =? 0)%Z.
Qed.

Lemma parseLimit_absent query :
  field query "limit" = JUndef -> parseLimit query = 25.
Proof. intros Hq. unfold parseLimit. by rewrite Hq. Qed.

Lemma parseLimit_nonzero query : parseLimit query <> 0.
Proof.
  pose proof (parseLimit_cases query) as Hc.
  destruct (parseInt _) as [|z]; [lia|].
  destruct (Z.eqb_spec z 0); lia.
Qed.

(** *** [getTotalPages] *)

Lemma getTotalPages_positive sorted (l : Z) :
  0 < l -> getTotalPages sorted (JNum (Num l)) = ceil_div (Z.of_nat (length sorted)) l.
Proof.
  intros Hl. unfold getTotalPages. simpl.
  destruct (Z.eqb_spec l 0); [lia|].
  destruct (Z.leb_spec l 0); [lia | done].
Qed.

Lemma getTotalPages_guard sorted (limit : JsVal) :
  truthy limit = false \/ is_number limit = false \/ le_zero limit = true ->
  getTotalPages sorted limit = 0.
Proof.
  unfold getTotalPages. intros [-> | [-> | ->]]; simpl; [done | |].
  - by rewrite orb_true_r.
  - by rewrite !orb_true_r.
Qed.

(** *** The handlers *)

Lemma listAllFormattedPaginated_all I query :
  isAllFiresRequested query = true ->
  listAllFormattedPaginated I query
  = getAllFiresNoPagination I (parseQuery I query) query.
Proof.
  intros Hall. unfold listAllFormattedPaginated, routeListAllFormattedPaginated,
    chooseFireListHandler. by rewrite Hall.
Qed.



Lemma getAllFiresNoPagination_cases I params query fires :
  listAll I params = Ok fires ->
  getAllFiresNoPagination I params query
  = if Z.of_nat (length fires) >? MAX_RECORDS_ALL
    then Throw (Error over_limit_message)
    else Ok (mkListing
               (buildMetadata I params query
                  (Z.of_nat (length (sortFires I fires (field query "sort")))))
               (sortFires I fires (field query "sort"))).
Proof. intros Hl. unfold getAllFiresNoPagination. by rewrite Hl. Qed.

Lemma over_limit_message_text :
  over_limit_message
  = "A requisição excede o limite de 10000 registros. Refine seus filtros ou use paginação.".
Proof. reflexivity. Qed.

(** C3. In [all=true] mode, for every query whose fetched and normalized
    record list has length [L] (the sort being a permutation of its
    input): if [L > 10000] the listing raises the over-limit error and
    returns no data; if [L <= 10000] no error is raised and the sorted
    list, of exactly [L] records, is returned with metadata whose
    [totalFocos] is [L]. *)
Theorem all_mode_respects_limit I query fires :
  (forall l s, Permutation (sortFires I l s) l) ->
  isAllFiresRequested query = true ->
  listAll I (parseQuery I query) = Ok fires ->
  let L := Z.of_nat (length fires) in
  (10000 < L ->
     listAllFormattedPaginated I query = Throw (Error over_limit_message))
  /\ (L <= 10000 ->
      exists r, listAllFormattedPaginated I query = Ok r
        /\ dados r = sortFires I fires (field query "sort")
        /\ Permutation (dados r) fires
        /\ Z.of_nat (length (dados r)) = L
        /\ field (metadados r) "totalFocos" = JNum (Num L)).
Proof.
  intros Hsort Hall Hl L.
  rewrite (listAllFormattedPaginated_all _ _ Hall).
  rewrite (getAllFiresNoPagination_cases _ _ _ _ Hl).
  rewrite Z.gtb_ltb. unfold MAX_RECORDS_ALL. fold L.
  split; intros HL.
  - destruct (Z.ltb_spec 10000 L); [done | lia].
  - destruct (Z.ltb_spec 10000 L); [lia|].
    eexists. split; [reflexivity|]. simpl.
    assert (Hlen : length (sortFires I fires (field query "sort")) = length fires)
      by (apply Permutation_length, Hsort).
    rewrite Hlen. by repeat split.
Qed.



(** The scenario of the specification: 60 records, [page=2], [limit=25]. *)
Lemma sixty_records_second_page sorted :
  length sorted = 60%nat ->
  getPagedData sorted 2 25 = take 25 (drop 25 sorted)
  /\ length (getPagedData sorted 2 25) = 25%nat
  /\ getTotalPages sorted (JNum (Num 25)) = 3.
Proof.
  intros Hlen. unfold getPagedData.
  rewrite (slice_from_start sorted ((2 - 1) * 25) 25) by lia.
  change (Z.to_nat 25) with 25%nat. change (Z.to_nat ((2 - 1) * 25)) with 25%nat.
  split; [done | split].
  - rewrite length_take, length_drop. lia.
  - rewrite getTotalPages_positive by lia. apply ceil_div_unique; lia.
Qed.

(** C10, as stated, fails: with a negative page the page returned can be
    empty. Three records, [page=-1] and the default limit give no record. *)
Lemma negative_page_can_be_empty :
  ~ (forall sorted (p l : Z), p < 0 -> 0 < l -> getPagedData sorted p l <> []).
Proof.
  intros Hclaim.
  by apply (Hclaim Samples.three_fires
              (parsePage [("page", JStr "-1")]) (parseLimit [])).
Qed.

(** With 30 records, [page=-1] and [limit=25] the page is made of the
    first five records. *)
Lemma negative_page_can_be_the_start :
  getPagedData (Samples.numbered 30) (-1) 25 = take 5 (Samples.numbered 30).
Proof. reflexivity. Qed.

(** C10, amended. [parsePage] returns a negative parsed value unchanged
    (only absent, non-numeric and zero values become 1). For a negative
    page [p], every list of [n] records and every limit [l > 0],
    [getPagedData] computes a negative start and [slice] counts both
    bounds from the end of the list: the result is the records at the
    indices [max(0, n+(p-1)*l), max(0, n+p*l)). It is the [l] records
    that end [-p*l] before the end of the list when [n >= (1-p)*l], and
    it is empty when [n <= -p*l]. *)
Theorem negative_page_counts_from_end sorted (p l : Z) :
  p < 0 -> 0 < l ->
  let n := Z.of_nat (length sorted) in
  let lo := Z.max (n + (p - 1) * l) 0 in
  let hi := Z.max (n + p * l) 0 in
  (p - 1) * l < 0
  /\ getPagedData sorted p l = take (Z.to_nat (hi - lo)) (drop (Z.to_nat lo) sorted)
  /\ (forall i : nat,
        getPagedData sorted p l !! i
        = if decide (Z.of_nat i < hi - lo)
          then sorted !! (Z.to_nat lo + i)%nat else None)
  /\ ((1 - p) * l <= n ->
      getPagedData sorted p l
      = take (Z.to_nat l) (drop (Z.to_nat (n + (p - 1) * l)) sorted)
      /\ Z.of_nat (length (getPagedData sorted p l)) = l)
  /\ (n <= - p * l -> getPagedData sorted p l = [])
  /\ (forall query z,
        parseInt (field query "page") = Num z -> z < 0 -> parsePage query = z)
  /\ (forall query,
        parseInt (field query "page") = NaN \/ parseInt (field query "page") = Num 0 ->
        parsePage query = 1).
Proof.
  intros Hp Hl n lo hi.
  assert (Hwin : getPagedData sorted p l
                 = take (Z.to_nat (hi - lo)) (drop (Z.to_nat lo) sorted)).
  { unfold getPagedData. rewrite slice_from_end by nia.
    fold n. replace (n + ((p - 1) * l + l)) with (n + p * l) by lia.
    fold lo hi. f_equal. lia. }
  repeat apply conj.
  - nia.
  - exact Hwin.
  - intros i. rewrite Hwin, lookup_window.
    repeat case_decide; try done; lia.
  - intros Hn. rewrite Hwin. split.
    + f_equal; [|f_equal]; lia.
    + rewrite length_take, length_drop. fold n. lia.
  - intros Hn. rewrite Hwin. replace (hi - lo) with 0 by lia. done.
  - intros query z Hq Hz. pose proof (parsePage_cases query) as Hc.
    rewrite Hq in Hc. by destruct (Z.eqb_spec z 0); [lia|].
  - intros query Hq. pose proof (parsePage_cases query) as Hc.
    destruct Hq as [Hq | Hq]; by rewrite Hq in Hc.
Qed.
End Listing.

Lemma all_mode_respects_limit_witness :
  exists r,
    FireService.listAllFormattedPaginated
      (Samples.imports Samples.three_fires Samples.locate_all Samples.geocode_bare)
      [("dt", JStr "2024-06-06"); ("dr", JStr "1"); ("sort", JStr "sensor");
       ("all", JStr "true")] = Ok r
    /\ FireService.dados r = Samples.three_fires
    /\ Permutation (FireService.dados r) Samples.three_fires
    /\ Z.of_nat (length (FireService.dados r)) = 3
    /\ field (FireService.metadados r) "totalFocos" = JNum (Num 3).
Proof.
  apply (proj2 (all_mode_respects_limit
    (Samples.imports Samples.three_fires Samples.locate_all Samples.geocode_bare)
    [("dt", JStr "2024-06-06"); ("dr", JStr "1"); ("sort", JStr "sensor");
     ("all", JStr "true")]
    Samples.three_fires
    (fun l _ => Permutation_refl l) eq_refl eq_refl)).
  simpl. lia.
Defined.

(** More than 10000 records: the over-limit error, and nothing else. *)
Lemma all_mode_over_limit_example :
  FireService.listAllFormattedPaginated
    (Samples.imports (Samples.numbered (Z.to_nat 10001)) Samples.locate_all
       Samples.geocode_bare)
    [("all", JStr "true")]
  = Throw (Error FireService.over_limit_message).
Proof. vm_compute. reflexivity. Qed.


Lemma negative_page_counts_from_end_witness :
  FireService.getPagedData (Samples.numbered 60) (-1) 25
  = take 25 (drop 10 (Samples.numbered 60)).
Proof.
  apply (proj1 (proj2 (negative_page_counts_from_end (Samples.numbered 60) (-1) 25
                         ltac:(lia) ltac:(lia)))).
Defined.

(* ===================================================================== *)
(** ** Properties of the location enrichment *)
(* ===================================================================== *)

Section Enrichment.
Import FireService Terms.
Implicit Types (I : Imports) (fires arr located : list JsVal)
               (foco fire item r : JsVal).

(** *** Objects *)

Lemma field_set_field_eq (fs : list (string * JsVal)) k v :
  field (set_field fs k v) k = v.
Proof.
  induction fs as [|[k' v'] fs IH]; simpl.
  - by rewrite String.eqb_refl.
  - destruct (String.eqb k' k) eqn:Hk; simpl; by rewrite Hk.
Qed.

Lemma field_set_field_ne (fs : list (string * JsVal)) k k' v :
  k <> k' -> field (set_field fs k v) k' = field fs k'.
Proof.
  intros Hne. induction fs as [|[k0 v0] fs IH]; simpl.
  - by destruct (String.eqb_spec k k').
  - destruct (String.eqb_spec k0 k) as [->|]; simpl.
    + by destruct (String.eqb_spec k k').
    + by rewrite IH.
Qed.

Lemma field_spread v k : field (spread v) k = opt_prop v k.
Proof. by destruct v. Qed.

Lemma prop_not_nullish v k : nullish v = false -> prop v k = Ok (opt_prop v k).
Proof. by destruct v. Qed.

Lemma prop_Ok_inv v k w : prop v k = Ok w -> nullish v = false /\ w = opt_prop v k.
Proof. destruct v; simpl; intros [= <-] || discriminate; done. Qed.

(** *** [map] with a callback that may throw *)

Lemma mapM_ok {A B} (f : A -> Res B) (g : A -> B) (l : list A) :
  Forall (fun x => f x = Ok (g x)) l -> mapM f l = Ok (map g l).
Proof.
  induction 1 as [|x l Hx _ IH]; simpl; [done|]. by rewrite Hx, IH.
Qed.

Lemma mapM_Ok_inv {A B} (f : A -> Res B) (l : list A) (ys : list B) :
  mapM f l = Ok ys -> Forall2 (fun x y => f x = Ok y) l ys.
Proof.
  revert ys. induction l as [|x l IH]; simpl; intros ys.
  - intros [= <-]. constructor.
  - destruct (f x) as [y|] eqn:Hx; simpl; [|discriminate].
    destruct (mapM f l) as [ys'|]; simpl; [|discriminate].
    intros [= <-]. constructor; [done | by apply IH].
Qed.

Lemma mapM_Ok_map {A B} (f : A -> Res B) (g : A -> B) (l : list A) (ys : list B) :
  (forall x y, f x = Ok y -> y = g x) -> mapM f l = Ok ys -> ys = map g l.
Proof.
  intros Hfg Hm. apply mapM_Ok_inv in Hm.
  induction Hm as [|x y l ys Hxy _ IH]; simpl; [done|].
  by rewrite IH, (Hfg x y Hxy).
Qed.

(** *** Points *)

Lemma to_point_ok I fire :
  nullish fire = false -> to_point I fire = Ok (point_of I fire).
Proof.
  intros Hn. unfold to_point. by rewrite !prop_not_nullish by done.
Qed.

Lemma to_point_Ok_inv I fire pt : to_point I fire = Ok pt -> pt = point_of I fire.
Proof.
  destruct fire; simpl; intros [= <-] || discriminate; done.
Qed.

Lemma points_ok I fires :
  Forall (fun f => nullish f = false) fires ->
  mapM (to_point I) fires = Ok (map (point_of I) fires).
Proof.
  intros Hf. apply mapM_ok. eapply Forall_impl; [exact Hf|].
  intros f Hn. by apply to_point_ok.
Qed.

Lemma points_keep_records I fires :
  Forall2 (fun f pt => opt_prop pt "fireData" = f) fires (map (point_of I) fires).
Proof. induction fires; simpl; constructor; done. Qed.

(** *** The standardized record *)

Lemma with_cidade_ok foco :
  nullish foco = false -> with_cidade foco = Ok (padronizado foco).
Proof. intros Hn. unfold with_cidade. by rewrite prop_not_nullish by done. Qed.

Lemma with_cidade_Ok_inv foco r : with_cidade foco = Ok r -> r = padronizado foco.
Proof.
  destruct foco; simpl; intros [= <-] || discriminate; done.
Qed.

Lemma mbind_Ok {A B} (a : A) (k : A -> Res B) : (Ok a ≫= k) = k a.
Proof. reflexivity. Qed.

Lemma localizacao_padronizado foco :
  opt_prop (padronizado foco) "localizacao"
  = JObj (set_field (spread (opt_prop foco "localizacao")) "cidade"
            (js_or (municipio_of foco) (JStr "N/A"))).
Proof. unfold padronizado. simpl. apply field_set_field_eq. Qed.

Lemma municipio_of_padronizado foco :
  municipio_of (padronizado foco) = municipio_of foco.
Proof.
  unfold municipio_of at 1. rewrite localizacao_padronizado. simpl.
  rewrite field_set_field_ne by done. apply field_spread.
Qed.

Lemma cidade_of_padronizado foco :
  cidade_of (padronizado foco) = js_or (municipio_of foco) (JStr "N/A").
Proof.
  unfold cidade_of. rewrite localizacao_padronizado. simpl.
  apply field_set_field_eq.
Qed.

Lemma padronizado_props foco :
  prop (padronizado foco) "localizacao"
  = Ok (opt_prop (padronizado foco) "localizacao")
  /\ truthy (opt_prop (padronizado foco) "localizacao") = true
  /\ prop (opt_prop (padronizado foco) "localizacao") "municipio"
     = Ok (municipio_of foco).
Proof.
  split; [done|]. rewrite <- (municipio_of_padronizado foco).
  unfold municipio_of. by rewrite localizacao_padronizado.
Qed.

Lemma localizado_padronizado foco :
  localizado (padronizado foco) = Ok (resolved foco).
Proof.
  destruct (padronizado_props foco) as (Hl & Ht & Hm).
  unfold localizado. rewrite Hl, mbind_Ok, Ht. cbn [negb].
  rewrite Hm, mbind_Ok. unfold resolved.
  by destruct (truthy (municipio_of foco)).
Qed.

Lemma sem_municipio_padronizado foco :
  sem_municipio (padronizado foco) = Ok (strict_eq_str (municipio_of foco) "N/A").
Proof.
  destruct (padronizado_props foco) as (Hl & Ht & Hm).
  unfold sem_municipio. rewrite Hl, mbind_Ok, Ht. cbn [negb].
  by rewrite Hm, mbind_Ok.
Qed.

Lemma every_padronizado arr :
  every localizado (map padronizado arr) = Ok (forallb resolved arr).
Proof.
  induction arr as [|foco arr IH]; simpl; [done|].
  rewrite localizado_padronizado. simpl. by destruct (resolved foco).
Qed.

Lemma count_if_padronizado arr :
  exists n, count_if sem_municipio (map padronizado arr) = Ok n.
Proof.
  unfold count_if.
  rewrite (mapM_ok sem_municipio
             (fun r => strict_eq_str (municipio_of r) "N/A")).
  - simpl. eauto.
  - apply Forall_forall. intros r Hr. apply list_elem_of_In in Hr.
    apply in_map_iff in Hr as (foco & <- & _).
    by rewrite sem_municipio_padronizado, municipio_of_padronizado.
Qed.

Lemma resolved_not_nullish foco : resolved foco = true -> nullish foco = false.
Proof. by destruct foco. Qed.


(** *** The two paths *)

Lemma addLocationData_run I fires :
  run (addLocationData I fires)
  = match primary I fires with
    | Ok located => (Ok located, [])
    | Throw _ => run (fallback I fires)
    end.
Proof.
  unfold run, addLocationData, catch, lift. by destruct (primary I fires).
Qed.

Lemma located_by_matcher I fires arr :
  Forall (fun f => nullish f = false) fires ->
  batchLocate I (map (point_of I) fires) = Ok (JArr arr) ->
  addMunicipalityLocationData I fires = mapM with_cidade arr.
Proof.
  intros Hf Hb. unfold addMunicipalityLocationData.
  by rewrite (points_ok _ _ Hf), mbind_Ok, Hb, mbind_Ok.
Qed.

Lemma primary_resolved I fires arr :
  Forall (fun f => nullish f = false) fires ->
  batchLocate I (map (point_of I) fires) = Ok (JArr arr) ->
  forallb resolved arr = true ->
  primary I fires = Ok (map padronizado arr).
Proof.
  intros Hf Hb Hall. unfold primary.
  rewrite (located_by_matcher _ _ _ Hf Hb).
  rewrite (mapM_ok with_cidade padronizado).
  - rewrite mbind_Ok. destruct (count_if_padronizado arr) as [n ->].
    by rewrite mbind_Ok, every_padronizado, mbind_Ok, Hall.
  - apply Forall_forall. intros foco Hin. apply with_cidade_ok, resolved_not_nullish.
    rewrite forallb_forall in Hall. apply Hall. by apply list_elem_of_In.
Qed.

Lemma primary_unresolved I fires arr :
  Forall (fun f => nullish f = false) fires ->
  batchLocate I (map (point_of I) fires) = Ok (JArr arr) ->
  forallb resolved arr = false ->
  exists e, primary I fires = Throw e.
Proof.
  intros Hf Hb Hall. unfold primary.
  rewrite (located_by_matcher _ _ _ Hf Hb).
  destruct (mapM with_cidade arr) as [located|e] eqn:Hm; [|by exists e].
  apply (mapM_Ok_map _ padronizado) in Hm; [|apply with_cidade_Ok_inv]. subst located.
  rewrite mbind_Ok. destruct (count_if_padronizado arr) as [n ->].
  rewrite mbind_Ok, every_padronizado, mbind_Ok, Hall. simpl. eauto.
Qed.

Lemma primary_matcher_fails I fires e :
  Forall (fun f => nullish f = false) fires ->
  batchLocate I (map (point_of I) fires) = Throw e ->
  primary I fires = Throw e.
Proof.
  intros Hf Hb. unfold primary, addMunicipalityLocationData.
  by rewrite (points_ok _ _ Hf), mbind_Ok, Hb.
Qed.

Lemma primary_matcher_no_array I fires v :
  Forall (fun f => nullish f = false) fires ->
  batchLocate I (map (point_of I) fires) = Ok v ->
  (forall arr, v <> JArr arr) ->
  exists e, primary I fires = Throw e.
Proof.
  intros Hf Hb Hv. unfold primary, addMunicipalityLocationData.
  rewrite (points_ok _ _ Hf), mbind_Ok, Hb, mbind_Ok.
  destruct v; simpl; eauto. by destruct (Hv l).
Qed.

Lemma fallback_run I fires :
  Forall (fun f => nullish f = false) fires ->
  run (fallback I fires)
  = (batchGeocode I (map (point_of I) fires) ≫= after_geocode,
     [map (point_of I) fires]).
Proof.
  intros Hf. unfold run, fallback, lift, geocode, after_geocode.
  unfold mbind at 1 2, M_bind. rewrite (points_ok _ _ Hf). simpl.
  destruct (batchGeocode I (map (point_of I) fires)) as [locations|e]; simpl; [|done].
  unfold mbind at 1, M_bind.
  destruct (as_array locations) as [arr|e]; simpl; [|done].
  unfold mbind at 1, M_bind.
  by destruct (count_if sem_municipio arr) as [n|e]; simpl.
Qed.

Lemma from_geocoder_localizacao item r :
  from_geocoder item = Ok r ->
  opt_prop r "localizacao" = opt_prop item "localizacao".
Proof.
  unfold from_geocoder.
  destruct (prop item "fireData") as [fd|] eqn:Hfd; [|discriminate].
  apply prop_Ok_inv in Hfd as [Hn _].
  rewrite mbind_Ok, prop_not_nullish, mbind_Ok by done.
  intros [= <-]. simpl. apply field_set_field_eq.
Qed.

(** C5. For every batch of records handed to [addLocationData]: if the
    matcher resolves every record to a municipality other than ['N/A'],
    its standardized result is returned and the reverse geocoder is not
    invoked; if a record is left unresolved, or the matcher fails or
    returns no array, the geocoder is invoked once, with the points of
    the whole batch (one per record, each carrying its record). *)
Theorem fallback_only_when_incomplete I fires :
  Forall (fun f => nullish f = false) fires ->
  let points := map (point_of I) fires in
  (forall arr,
      batchLocate I points = Ok (JArr arr) -> forallb resolved arr = true ->
      run (addLocationData I fires) = (Ok (map padronizado arr), [])
      /\ addMunicipalityLocationData I fires = Ok (map padronizado arr))
  /\ (forall arr,
        batchLocate I points = Ok (JArr arr) -> forallb resolved arr = false ->
        snd (run (addLocationData I fires)) = [points])
  /\ (forall e, batchLocate I points = Throw e ->
        snd (run (addLocationData I fires)) = [points])
  /\ (forall v, batchLocate I points = Ok v -> (forall arr, v <> JArr arr) ->
        snd (run (addLocationData I fires)) = [points])
  /\ length points = length fires
  /\ Forall2 (fun f pt => opt_prop pt "fireData" = f) fires points.
Proof.
  intros Hf points. repeat apply conj.
  - intros arr Hb Hall. rewrite addLocationData_run.
    rewrite (primary_resolved _ _ _ Hf Hb Hall). split; [done|].
    rewrite (located_by_matcher _ _ _ Hf Hb). apply mapM_ok.
    apply Forall_forall. intros foco Hin. apply with_cidade_ok, resolved_not_nullish.
    rewrite forallb_forall in Hall. apply Hall. by apply list_elem_of_In.
  - intros arr Hb Hall. rewrite addLocationData_run.
    destruct (primary_unresolved _ _ _ Hf Hb Hall) as [e ->].
    by rewrite (fallback_run _ _ Hf).
  - intros e Hb. rewrite addLocationData_run.
    rewrite (primary_matcher_fails _ _ _ Hf Hb).
    by rewrite (fallback_run _ _ Hf).
  - intros v Hb Hv. rewrite addLocationData_run.
    destruct (primary_matcher_no_array _ _ _ Hf Hb Hv) as [e ->].
    by rewrite (fallback_run _ _ Hf).
  - unfold points. by rewrite length_map.
  - apply points_keep_records.
Qed.

(** C6. In [addLocationData], every error raised on the primary path
    (a failing matcher, or the error raised for a batch that is not fully
    resolved) is caught: the result is that of the fallback, and the
    primary error is not what the caller gets. An error of the fallback
    call [batchGeocode] is not caught: it is the outcome of
    [addLocationData], which returns no record at all. *)
Theorem primary_errors_caught_fallback_errors_propagate I fires :
  Forall (fun f => nullish f = false) fires ->
  let points := map (point_of I) fires in
  (forall e, primary I fires = Throw e ->
      run (addLocationData I fires) = run (fallback I fires)
      /\ run (fallback I fires) = (batchGeocode I points ≫= after_geocode, [points]))
  /\ (forall e, batchLocate I points = Throw e -> primary I fires = Throw e)
  /\ (forall arr,
        batchLocate I points = Ok (JArr arr) -> forallb resolved arr = false ->
        exists e, primary I fires = Throw e)
  /\ (forall e e', primary I fires = Throw e -> batchGeocode I points = Throw e' ->
        run (addLocationData I fires) = (Throw e', [points]))
  /\ (forall e locations out,
        primary I fires = Throw e -> batchGeocode I points = Ok locations ->
        fst (run (addLocationData I fires)) = Ok out ->
        after_geocode locations = Ok out).
Proof.
  intros Hf points. repeat apply conj.
  - intros e He. split; [by rewrite addLocationData_run, He | by apply fallback_run].
  - intros e. by apply primary_matcher_fails.
  - intros arr. by apply primary_unresolved.
  - intros e e' He Hg. rewrite addLocationData_run, He, (fallback_run _ _ Hf).
    fold points. by rewrite Hg.
  - intros e locations out He Hg. rewrite addLocationData_run, He, (fallback_run _ _ Hf).
    fold points. by rewrite Hg, mbind_Ok.
Qed.



Lemma fallback_Ok_inv I fires out :
  fst (run (fallback I fires)) = Ok out ->
  exists arr, batchGeocode I (map (point_of I) fires) = Ok (JArr arr)
              /\ mapM from_geocoder arr = Ok out.
Proof.
  unfold run, fallback, lift, geocode.
  unfold mbind at 1 2, M_bind.
  destruct (mapM (to_point I) fires) as [points|] eqn:Hp; [|discriminate].
  apply (mapM_Ok_map _ (point_of I)) in Hp; [|apply to_point_Ok_inv]. subst points.
  destruct (batchGeocode I (map (point_of I) fires)) as [locations|]; [|discriminate].
  unfold mbind at 1, M_bind.
  destruct locations as [| | | | |arr|]; try discriminate. simpl.
  unfold mbind at 1, M_bind.
  destruct (count_if sem_municipio arr); simpl; [|discriminate].
  intros Hout. by exists arr.
Qed.

Lemma js_or_default_truthy m : truthy (js_or m (JStr "N/A")) = true.
Proof. unfold js_or. by destruct (truthy m) eqn:Hm. Qed.

Lemma js_or_default_string m :
  typeof m = TString \/ m = JUndef -> non_empty_string (js_or m (JStr "N/A")).
Proof.
  intros [Hm | ->]; [|by exists "N/A"].
  destruct m as [| | | |s| |]; try discriminate.
  unfold js_or. simpl. destruct (String.eqb_spec s EmptyString) as [->|Hs]; simpl.
  - by exists "N/A".
  - by exists s.
Qed.


End Enrichment.

Lemma fallback_only_when_incomplete_witness :
  snd (FireService.run
         (FireService.addLocationData
            (Samples.imports [] Samples.locate_all_but_first Samples.geocode_bare)
            (Samples.numbered 10)))
  = [map (Terms.point_of
            (Samples.imports [] Samples.locate_all_but_first Samples.geocode_bare))
         (Samples.numbered 10)].
Proof.
  refine (proj1 (proj2 (fallback_only_when_incomplete
    (Samples.imports [] Samples.locate_all_but_first Samples.geocode_bare)
    (Samples.numbered 10) _)) _ eq_refl eq_refl).
  apply (bool_decide_unpack _). vm_compute. reflexivity.
Defined.

Lemma primary_errors_caught_fallback_errors_propagate_witness :
  FireService.run
    (FireService.addLocationData
       (Samples.imports [] Samples.locate_all_but_first Samples.geocode_down)
       Samples.three_fires)
  = (Throw (Error "Request failed with status code 429"),
     [map (Terms.point_of
             (Samples.imports [] Samples.locate_all_but_first Samples.geocode_down))
          Samples.three_fires]).
Proof.
  refine (proj1 (proj2 (proj2 (proj2 (primary_errors_caught_fallback_errors_propagate
    (Samples.imports [] Samples.locate_all_but_first Samples.geocode_down)
    Samples.three_fires _)))) _ _ eq_refl eq_refl).
  apply (bool_decide_unpack _). vm_compute. reflexivity.
Defined.

(* ===================================================================== *)
(** ** Properties of the in-flight registry *)
(* ===================================================================== *)

Section SingleFlight.
Import InFlight.
Local Open Scope list_scope.
Implicit Types (st : State) (key k : string) (evs : list Event) (p : Pending).





Lemma first_factory_None key evs :
  first_factory key evs = None -> callers_of key evs = [].
Proof.
  induction evs as [|[c k f | k o] evs IH]; simpl; [done | | done].
  by case_decide.
Qed.

End SingleFlight.


(* ===================================================================== *)
(** ** Further properties of the TTL stores *)
(* ===================================================================== *)

Section StoreLaws.
Import CacheCore.
Context {K : Type} `{Countable K} {V : Type}.
Implicit Types (m : gmap K (Entry V)) (k : K) (v : V).

(** X1. After [setComTTL(map, k, v, ttl)] at instant [now], with any [ttl]
    (omitted, zero and negative included), [getValido(map, k)] returns [v]
    exactly while the clock is not past [now + ttl] (30 minutes when [ttl]
    is omitted), leaving the store as it is; past that instant it returns
    [null] and removes the entry. *)
Theorem getValido_hits_exactly_until_expiry m k v (ttl : option Z) (now now' : Z) :
  let m1 := setComTTL m k v ttl now in
  let expiry := now + default 1800000 ttl in
  getValido m1 k now'
  = if now' <=? expiry then (Some v, m1) else (None, delete k m1).
Proof.
  intros m1 expiry.
  assert (Hm1 : m1 !! k = Some (mkEntry v expiry)) by apply setComTTL_lookup.
  destruct (Z.leb_spec now' expiry).
  - by rewrite (getValido_fresh _ _ _ _ Hm1).
  - by rewrite (getValido_stale _ _ _ _ Hm1).
Qed.

(** X2. A value returned by [getValido(map, k)] is the [dados] of an entry
    of [k] that has not expired, and the read leaves the store untouched
    (a hit does not renew the entry). A [null] comes from a key that is
    absent or expired; it leaves [k] absent and every other key as it was. *)
Theorem getValido_outcomes m k (now : Z) :
  match getValido m k now with
  | (Some v, m') =>
      m' = m /\ exists e, m !! k = Some e /\ dados e = v /\ now <= expiracao e
  | (None, m') =>
      m' = delete k m
      /\ m' !! k = None
      /\ (forall k', k' <> k -> m' !! k' = m !! k')
      /\ (m !! k = None \/ exists e, m !! k = Some e /\ expiracao e < now)
  end.
Proof.
  unfold getValido. destruct (m !! k) as [e|] eqn:Hm.
  - destruct (Z.ltb_spec (expiracao e) now).
    + split; [done|]. split; [apply lookup_delete_eq|].
      split; [|right; eauto]. intros k' Hk. by apply lookup_delete_ne.
    + split; [done|]. eauto.
  - split; [by rewrite delete_id|]. split; [done|]. split; [done | by left].
Qed.

(** X3. Reading the same key again at the same instant gives the same
    answer and changes nothing more: the effect of [getValido] on the store
    is complete after the first read. *)
Theorem getValido_repeated m k (now : Z) :
  getValido (snd (getValido m k now)) k now
  = (fst (getValido m k now), snd (getValido m k now)).
Proof.
  unfold getValido at 2 3 4. destruct (m !! k) as [e|] eqn:Hm.
  - destruct (Z.ltb_spec (expiracao e) now); simpl.
    + apply getValido_absent, lookup_delete_eq.
    + by apply getValido_fresh.
  - by apply getValido_absent.
Qed.

(** X4. Keys do not interfere: writing [k] does not change what a read of
    another key [k'] returns, and a read of [k] (which may delete [k])
    leaves the entry of [k'] as it was. *)
Theorem other_keys_untouched m k k' v (ttl : option Z) (now now' : Z) :
  k <> k' ->
  fst (getValido (setComTTL m k v ttl now) k' now') = fst (getValido m k' now')
  /\ snd (getValido m k now') !! k' = m !! k'.
Proof.
  intros Hne. split.
  - unfold getValido. rewrite (setComTTL_lookup_ne _ _ _ _ _ _ Hne).
    destruct (m !! k') as [e|]; [|done]. by destruct (expiracao e <? now').
  - unfold getValido. destruct (m !! k) as [e|]; [|done].
    destruct (expiracao e <? now'); simpl; [|done].
    by apply lookup_delete_ne.
Qed.

(** X5. The last write wins: writing [k] twice leaves the store that the
    second write alone would leave, so the value and the expiration instant
    of the first write are forgotten (also when the first would have lived
    longer). *)
Theorem setComTTL_overwrites m k v1 v2 (ttl1 ttl2 : option Z) (now1 now2 : Z) :
  setComTTL (setComTTL m k v1 ttl1 now1) k v2 ttl2 now2 = setComTTL m k v2 ttl2 now2
  /\ forall now',
       getValido (setComTTL (setComTTL m k v1 ttl1 now1) k v2 ttl2 now2) k now'
       = getValido (setComTTL m k v2 ttl2 now2) k now'.
Proof.
  assert (Heq : setComTTL (setComTTL m k v1 ttl1 now1) k v2 ttl2 now2
                = setComTTL m k v2 ttl2 now2).
  { unfold setComTTL. apply insert_insert_eq. }
  split; [done|]. intros now'. by rewrite Heq.
Qed.
End StoreLaws.

Lemma other_keys_untouched_witness :
  fst (CacheCore.getValido
         (CacheCore.setComTTL (∅ : gmap string (CacheCore.Entry JsVal))
            "a" (JStr "v") None 0) "b" 5)
  = fst (CacheCore.getValido (∅ : gmap string (CacheCore.Entry JsVal)) "b" 5)
  /\ snd (CacheCore.getValido (∅ : gmap string (CacheCore.Entry JsVal)) "a" 5) !! "b"
     = (∅ : gmap string (CacheCore.Entry JsVal)) !! "b".
Proof.
  apply (other_keys_untouched (∅ : gmap string (CacheCore.Entry JsVal))
           "a" "b" (JStr "v") None 0 5).
  discriminate.
Defined.

Section ClearAll.
Import CacheCore.

(** X6. [limparTodosCaches()] leaves the switch as it is and empties the
    three TTL stores and the in-flight map: afterwards every
    [getValido] on every store and key is a miss, at any instant, and
    changes nothing. *)
Theorem limparTodosCaches_forgets_everything s :
  isAtivo (limparTodosCaches s) = isAtivo s
  /\ inFlightRequests (limparTodosCaches s) = ∅
  /\ forall r k now,
       getValido_on r k now (limparTodosCaches s) = (None, limparTodosCaches s).
Proof.
  split; [done | split; [done|]]. intros r k now.
  unfold getValido_on. rewrite getValido_absent; by destruct r.
Qed.
End ClearAll.

(* ===================================================================== *)
(** ** Further properties of the key builders *)
(* ===================================================================== *)

Section KeyEdges.
Import CacheCore Terms.

(** X7. [gerarChaveResultado] throws a TypeError when its argument is
    [undefined] or [null], and only then. On any other value that is not an
    object (a number, a string, a boolean, an array) it returns the key of
    the empty object. *)
Theorem gerarChaveResultado_argument (arg : JsVal) :
  (nullish arg = true -> exists msg, gerarChaveResultado arg = Throw (TypeError msg))
  /\ (nullish arg = false -> exists key, gerarChaveResultado arg = Ok key)
  /\ (nullish arg = false -> (forall fs, arg <> JObj fs) ->
      gerarChaveResultado arg = Ok "{}"
      /\ gerarChaveResultado arg = gerarChaveResultado (JObj [])).
Proof.
  repeat apply conj.
  - destruct arg; try discriminate; intros _; eexists; reflexivity.
  - destruct arg; try discriminate; intros _; eexists; reflexivity.
  - destruct arg as [| | | | | |fs]; try discriminate; intros _ Hobj; try done.
    by destruct (Hobj fs).
Qed.

(** X8. The keys do not tell every pair of different queries apart: a
    [dayRange] that is [NaN] and one that is [null] give the same
    [gerarChaveSensor] key, and a query whose [timeRange] is [undefined]
    gives the [gerarChaveResultado] key of the query without [timeRange]. *)
Theorem keys_can_collide (sensor bbox date dayRange : JsVal) :
  gerarChaveSensor sensor bbox (JNum NaN) date
  = gerarChaveSensor sensor bbox JNull date
  /\ gerarChaveResultado
       (JObj [("dayRange", dayRange); ("date", date); ("timeRange", JUndef)])
     = gerarChaveResultado (JObj [("dayRange", dayRange); ("date", date)]).
Proof. split; reflexivity. Qed.
End KeyEdges.

(* ===================================================================== *)
(** ** Further properties of the listing handlers *)
(* ===================================================================== *)

Section ListingLaws.
Import FireService Terms Terms2.
Implicit Types (I : Imports) (query params : list (string * JsVal))
               (sorted fires : list JsVal).

(** X9. [routeListAll] answers the empty list for every raw result that is
    not an array with at least one element ([undefined], [null], an object,
    an empty array, ...), whatever the format router would do with it; a
    non-empty array is handed to [FireModel.routeByFormat] and its answer
    (or its error) is the result. *)
Theorem routeListAll_empty_without_router I (raw : JsVal) :
  ((forall x l, raw <> JArr (x :: l)) -> routeListAll I raw = Ok [])
  /\ (forall x l, raw = JArr (x :: l) -> routeListAll I raw = routeByFormat I (x :: l)).
Proof.
  split.
  - intros Hraw. unfold routeListAll.
    destruct raw as [| | | | |[|x l]|]; try done. by destruct (Hraw x l).
  - intros x l ->. unfold routeListAll. simpl.
    by destruct (Z.ltb_spec 0 (Z.pos (Pos.of_succ_nat (length l)))); [|lia].
Qed.

Lemma isAllFiresRequested_with_all query : isAllFiresRequested (with_all query) = true.
Proof.
  unfold isAllFiresRequested, with_all. by rewrite field_set_field_eq.
Qed.

Lemma listAll_fetch_fails I params e :
  fetchFiresMT I params = Throw e -> listAll I params = Throw e.
Proof. intros Hf. unfold listAll. by rewrite Hf. Qed.

(** X10. When the upstream fetch fails, the listing fails with the same
    error, in paged mode and in [all] mode alike; [listAllWithLocation]
    fails with it too, before any call to the geocoder. *)
Theorem fetch_failure_fails_the_request I query (e : JsError) :
  (forall params, fetchFiresMT I params = Throw e) ->
  listAllFormattedPaginated I query = Throw e
  /\ run (listAllWithLocation I query) = (Throw e, []).
Proof.
  intros Hdown.
  assert (Hany : forall q, listAllFormattedPaginated I q = Throw e).
  { intros q. unfold listAllFormattedPaginated, routeListAllFormattedPaginated,
      chooseFireListHandler.
    destruct (isAllFiresRequested q).
    - unfold getAllFiresNoPagination. by rewrite (listAll_fetch_fails _ _ _ (Hdown _)).
    - unfold getPagedFires. by rewrite (listAll_fetch_fails _ _ _ (Hdown _)). }
  split; [apply Hany|].
  unfold run, listAllWithLocation, lift. unfold mbind at 1, M_bind.
  fold (with_all query). by rewrite Hany.
Qed.

(** *** Pages *)

Lemma chunks_concat {A} (n count : nat) (s : list A) :
  (0 < n)%nat -> (length s <= count * n)%nat ->
  concat (map (fun i : nat => take n (drop (i * n) s)) (seq 0 count)) = s.
Proof.
  intros Hn. revert s. induction count as [|c IH]; intros s Hlen.
  - destruct s; [done | simpl in Hlen; lia].
  - simpl seq. rewrite <- seq_shift, map_cons, map_map. simpl concat.
    rewrite drop_0.
    rewrite (map_ext _ (fun i : nat => take n (drop (i * n) (drop n s)))).
    + rewrite IH; [apply take_drop|]. rewrite length_drop. lia.
    + intros i. rewrite drop_drop. do 2 f_equal; lia.
Qed.

Lemma getPagedData_page sorted (p l : Z) :
  1 <= p -> 1 <= l ->
  getPagedData sorted p l
  = take (Z.to_nat l) (drop (Z.to_nat (p - 1) * Z.to_nat l) sorted).
Proof.
  intros Hp Hl. unfold getPagedData. rewrite slice_from_start by nia.
  do 2 f_equal. rewrite Z2Nat.inj_mul by lia. done.
Qed.

(** X11. For a limit [l >= 1], the pages [1 .. totalPaginas] put one
    after the other are the sorted list: no record is lost or repeated.
    Every page before the last has exactly [l] records, every page up to
    [totalPaginas] has at least one and at most [l], and every page after
    [totalPaginas] is empty. *)
Theorem pages_partition_the_list sorted (l : Z) :
  1 <= l ->
  let c := getTotalPages sorted (JNum (Num l)) in
  pages_in_order sorted l (Z.to_nat c) = sorted
  /\ (forall p, 1 <= p -> Z.of_nat (length (getPagedData sorted p l)) <= l)
  /\ (forall p, 1 <= p < c -> Z.of_nat (length (getPagedData sorted p l)) = l)
  /\ (forall p, 1 <= p <= c -> getPagedData sorted p l <> [])
  /\ (forall p, c < p -> getPagedData sorted p l = []).
Proof.
  intros Hl c.
  assert (Hc : (c - 1) * l < Z.of_nat (length sorted) <= c * l).
  { unfold c. rewrite getTotalPages_positive by lia. apply ceil_div_spec. lia. }
  assert (Hc0 : 0 <= c) by nia.
  repeat apply conj.
  - unfold pages_in_order.
    rewrite (map_ext _ (fun i : nat =>
               take (Z.to_nat l) (drop (i * Z.to_nat l) sorted))).
    + apply chunks_concat; [lia|]. nia.
    + intros i. rewrite getPagedData_page by lia. do 3 f_equal. lia.
  - intros p Hp. rewrite getPagedData_page, length_take by lia. lia.
  - intros p Hp. rewrite getPagedData_page, length_take, length_drop by lia. nia.
  - intros p Hp Hnil. apply (f_equal length) in Hnil.
    rewrite getPagedData_page, length_take, length_drop in Hnil by lia.
    simpl in Hnil. nia.
  - intros p Hp. rewrite getPagedData_page by lia.
    rewrite drop_ge; [apply take_nil | nia].
Qed.

Lemma slice_to_negative_stop {A} (s : list A) (stop : Z) :
  stop < 0 -> slice s 0 stop = take (Z.to_nat (Z.of_nat (length s) + stop)) s.
Proof.
  intros Hs. unfold slice.
  destruct (Z.ltb_spec 0 0); [lia|]. destruct (Z.ltb_spec stop 0); [|lia].
  rewrite Z.min_l by lia. simpl drop. f_equal. lia.
Qed.

(** X12. A negative limit is not replaced by the default. With a parsed
    limit [l < 0], page 1 is the whole sorted list without its last [-l]
    records, every later page is empty, and [totalPaginas] is 0. *)
Theorem negative_limit_pages sorted (l : Z) :
  l < 0 ->
  getPagedData sorted 1 l = take (Z.to_nat (Z.of_nat (length sorted) + l)) sorted
  /\ (forall p, 2 <= p -> getPagedData sorted p l = [])
  /\ getTotalPages sorted (JNum (Num l)) = 0
  /\ (forall query, parseInt (field query "limit") = Num l -> parseLimit query = l).
Proof.
  intros Hl. repeat apply conj.
  - unfold getPagedData. change ((1 - 1) * l) with 0.
    by rewrite Z.add_0_l, slice_to_negative_stop.
  - intros p Hp. unfold getPagedData. rewrite slice_from_end by nia.
    rewrite Z.max_r; [done|]. nia.
  - apply getTotalPages_guard. right; right. simpl. lia.
  - intros query Hq. pose proof (parseLimit_cases query) as Hc. rewrite Hq in Hc.
    by destruct (Z.eqb_spec l 0); [lia|].
Qed.

(** *** [listAllWithLocation] *)

(** X13. [listAllWithLocation] always lists in [all] mode, whatever
    [all], [page] and [limit] the query carries: over 10000 records it
    fails with the over-limit error before any location work; otherwise it
    enriches the whole sorted list and returns the metadata of the [all]
    listing (without [paginacao]) next to the enriched records. *)
Theorem listAllWithLocation_lists_everything I query fires :
  listAll I (parseQuery I (with_all query)) = Ok fires ->
  let sorted := sortFires I fires (field (with_all query) "sort") in
  let meta := buildMetadata I (parseQuery I (with_all query)) (with_all query)
                (Z.of_nat (length sorted)) in
  (10000 < Z.of_nat (length fires) ->
     run (listAllWithLocation I query) = (Throw (Error over_limit_message), []))
  /\ (Z.of_nat (length fires) <= 10000 ->
      run (listAllWithLocation I query)
      = match run (addLocationData I sorted) with
        | (Ok enriched, calls) => (Ok (mkLocated meta enriched), calls)
        | (Throw e, calls) => (Throw e, calls)
        end)
  /\ field meta "paginacao" = JUndef.
Proof.
  intros Hl sorted meta.
  assert (Hlist : listAllFormattedPaginated I (with_all query)
                  = if Z.of_nat (length fires) >? MAX_RECORDS_ALL
                    then Throw (Error over_limit_message)
                    else Ok (mkListing meta sorted)).
  { rewrite (listAllFormattedPaginated_all _ _ (isAllFiresRequested_with_all query)).
    apply (getAllFiresNoPagination_cases _ _ _ _ Hl). }
  rewrite Z.gtb_ltb in Hlist. unfold MAX_RECORDS_ALL in Hlist.
  repeat apply conj; [intros HL | intros HL | done].
  - unfold run, listAllWithLocation, lift. unfold mbind at 1, M_bind.
    fold (with_all query). rewrite Hlist.
    by destruct (Z.ltb_spec 10000 (Z.of_nat (length fires))); [|lia].
  - unfold run, listAllWithLocation, lift. unfold mbind at 1, M_bind.
    fold (with_all query). rewrite Hlist.
    destruct (Z.ltb_spec 10000 (Z.of_nat (length fires))); [lia|].
    simpl dados. simpl metadados. unfold mbind, M_bind, mret, M_ret.
    by destruct (addLocationData I sorted []) as [[enriched|e] calls].
Qed.
End ListingLaws.

Lemma fetch_failure_fails_the_request_witness :
  FireService.listAllFormattedPaginated Samples2.imports_fetch_down
    [("dt", JStr "2024-06-06"); ("page", JStr "2")]
  = Throw (Error "timeout of 10000ms exceeded")
  /\ FireService.run
       (FireService.listAllWithLocation Samples2.imports_fetch_down
          [("dt", JStr "2024-06-06"); ("page", JStr "2")])
     = (Throw (Error "timeout of 10000ms exceeded"), []).
Proof.
  apply (fetch_failure_fails_the_request Samples2.imports_fetch_down
           [("dt", JStr "2024-06-06"); ("page", JStr "2")]
           (Error "timeout of 10000ms exceeded")).
  intros params. reflexivity.
Defined.

Lemma pages_partition_the_list_witness :
  Terms2.pages_in_order (Samples.numbered 60) 25
    (Z.to_nat (FireService.getTotalPages (Samples.numbered 60) (JNum (Num 25))))
  = Samples.numbered 60.
Proof.
  apply (proj1 (pages_partition_the_list (Samples.numbered 60) 25 ltac:(lia))).
Defined.

Lemma negative_limit_pages_witness :
  FireService.getPagedData (Samples.numbered 60) 1 (-5)
  = take (Z.to_nat (Z.of_nat (length (Samples.numbered 60)) + -5)) (Samples.numbered 60).
Proof.
  apply (proj1 (negative_limit_pages (Samples.numbered 60) (-5) ltac:(lia))).
Defined.

Lemma listAllWithLocation_lists_everything_witness :
  field
    (FireService.buildMetadata
       (Samples.imports Samples.three_fires Samples.locate_all Samples.geocode_bare)
       (FireService.parseQuery
          (Samples.imports Samples.three_fires Samples.locate_all Samples.geocode_bare)
          (Terms2.with_all [("page", JStr "2"); ("all", JStr "false")]))
       (Terms2.with_all [("page", JStr "2"); ("all", JStr "false")])
       (Z.of_nat (length
          (FireService.sortFires
             (Samples.imports Samples.three_fires Samples.locate_all Samples.geocode_bare)
             Samples.three_fires
             (field (Terms2.with_all [("page", JStr "2"); ("all", JStr "false")]) "sort")))))
    "paginacao" = JUndef.
Proof.
  apply (proj2 (proj2 (listAllWithLocation_lists_everything
    (Samples.imports Samples.three_fires Samples.locate_all Samples.geocode_bare)
    [("page", JStr "2"); ("all", JStr "false")] Samples.three_fires eq_refl))).
Defined.

(* ===================================================================== *)
(** ** Properties of the response metadata *)
(* ===================================================================== *)

Section Metadata.
Import FireService Terms Terms2.
Implicit Types (I : Imports) (query params : list (string * JsVal))
               (sorted fires : list JsVal).

(** X14. In the metadata, [parametrosBusca] always holds [data],
    [diasConsiderados] and [ordenacao], in that order, and holds
    [intervaloHoras] (with [inicio] and [fim]) exactly when [timeRange] is
    an object whose [start] and [end] are both truthy: otherwise the field
    does not exist at all. [ordenacao] is the query's [sort] when that is
    truthy and ['sensor'] otherwise, so it is never empty. *)
Theorem parametrosBusca_shape I params query (total : Z) :
  exists pb,
    field (buildMetadata I params query total) "parametrosBusca" = JObj pb
    /\ keys pb = (["data"; "diasConsiderados"; "ordenacao"]
                  ++ if has_interval params then ["intervaloHoras"] else [])%list
    /\ field pb "intervaloHoras"
       = (if has_interval params
          then JObj [("inicio", opt_prop (field params "timeRange") "start");
                     ("fim", opt_prop (field params "timeRange") "end")]
          else JUndef)
    /\ field pb "data" = field params "date"
    /\ field pb "diasConsiderados" = field params "dayRange"
    /\ field pb "ordenacao" = js_or (field query "sort") (JStr "sensor")
    /\ truthy (field pb "ordenacao") = true.
Proof.
  unfold buildMetadata, _getIntervaloHoras, has_interval. simpl field.
  eexists. split; [reflexivity|].
  assert (Hsort : truthy (_getSort query) = true).
  { unfold _getSort, js_or. by destruct (truthy (field query "sort")) eqn:Hs. }
  destruct (truthy (field params "timeRange")); simpl; [|done].
  destruct (typeof (field params "timeRange")); simpl; try done.
  destruct (truthy (opt_prop (field params "timeRange") "start")); simpl; [|done].
  by destruct (truthy (opt_prop (field params "timeRange") "end")); simpl.
Qed.

Lemma length_slice_le {A} (s : list A) (start stop : Z) :
  (length (slice s start stop) <= length s)%nat.
Proof. unfold slice. rewrite length_take, length_drop. lia. Qed.

(** X15. Both handlers answer metadata with [parametrosBusca],
    [timestampConsulta] and [totalFocos], and only the paged one adds
    [paginacao] (current page, page size, page count). In paged mode
    [totalFocos] is the size of the whole sorted list, not of the page
    returned, and the page is never longer than that. *)
Theorem listing_metadata_shape I params query fires :
  listAll I params = Ok fires ->
  let sorted := sortFires I fires (field query "sort") in
  (exists r, getPagedFires I params query = Ok r
     /\ keys (metadados r)
        = ["parametrosBusca"; "timestampConsulta"; "totalFocos"; "paginacao"]
     /\ field (metadados r) "totalFocos" = JNum (Num (Z.of_nat (length sorted)))
     /\ field (metadados r) "timestampConsulta" = JStr (toISOString_now I)
     /\ field (metadados r) "paginacao"
        = JObj [("paginaAtual", JNum (Num (parsePage query)));
                ("itensPorPagina", JNum (Num (parseLimit query)));
                ("totalPaginas",
                 JNum (Num (getTotalPages sorted (JNum (Num (parseLimit query))))))]
     /\ (length (dados r) <= length sorted)%nat)
  /\ (Z.of_nat (length fires) <= 10000 ->
      exists r, getAllFiresNoPagination I params query = Ok r
        /\ keys (metadados r) = ["parametrosBusca"; "timestampConsulta"; "totalFocos"]
        /\ field (metadados r) "totalFocos" = JNum (Num (Z.of_nat (length sorted)))
        /\ dados r = sorted).
Proof.
  intros Hl sorted. split.
  - unfold getPagedFires. rewrite Hl. simpl. eexists. split; [reflexivity|].
    simpl. repeat split. apply length_slice_le.
  - intros HL. rewrite (getAllFiresNoPagination_cases _ _ _ _ Hl).
    rewrite Z.gtb_ltb. unfold MAX_RECORDS_ALL.
    destruct (Z.ltb_spec 10000 (Z.of_nat (length fires))); [lia|].
    eexists. split; [reflexivity|]. by repeat split.
Qed.
End Metadata.

Lemma listing_metadata_shape_witness :
  exists r,
    FireService.getPagedFires
      (Samples.imports Samples.three_fires Samples.locate_all Samples.geocode_bare)
      [] [("page", JStr "1"); ("limit", JStr "2")] = Ok r
    /\ Terms2.keys (FireService.metadados r)
       = ["parametrosBusca"; "timestampConsulta"; "totalFocos"; "paginacao"]
    /\ field (FireService.metadados r) "totalFocos" = JNum (Num 3)
    /\ field (FireService.metadados r) "timestampConsulta"
       = JStr "2024-06-06T12:00:00.000Z"
    /\ field (FireService.metadados r) "paginacao"
       = JObj [("paginaAtual", JNum (Num 1)); ("itensPorPagina", JNum (Num 2));
               ("totalPaginas", JNum (Num 2))]
    /\ (length (FireService.dados r) <= 3)%nat.
Proof.
  apply (proj1 (listing_metadata_shape
    (Samples.imports Samples.three_fires Samples.locate_all Samples.geocode_bare)
    [] [("page", JStr "1"); ("limit", JStr "2")] Samples.three_fires eq_refl)).
Defined.

(* ===================================================================== *)
(** ** Further properties of the location enrichment *)
(* ===================================================================== *)

Section EnrichmentLaws.
Import FireService Terms Terms2.
Implicit Types (I : Imports) (fires arr located : list JsVal)
               (foco fire item r : JsVal).

Lemma padronizado_keeps foco k :
  k <> "localizacao" -> opt_prop (padronizado foco) k = opt_prop foco k.
Proof.
  intros Hk. unfold padronizado. simpl.
  rewrite field_set_field_ne by done. apply field_spread.
Qed.

Lemma padronizado_localizacao_keeps foco k :
  k <> "cidade" ->
  opt_prop (opt_prop (padronizado foco) "localizacao") k
  = opt_prop (opt_prop foco "localizacao") k.
Proof.
  intros Hk. rewrite localizacao_padronizado. simpl.
  rewrite field_set_field_ne by done. apply field_spread.
Qed.

Lemma addMunicipalityLocationData_Ok_matcher I fires located :
  addMunicipalityLocationData I fires = Ok located ->
  exists arr,
    batchLocate I (map (point_of I) fires) = Ok (JArr arr)
    /\ located = map padronizado arr.
Proof.
  unfold addMunicipalityLocationData.
  destruct (mapM (to_point I) fires) as [points|] eqn:Hp; [|discriminate].
  apply (mapM_Ok_map _ (point_of I)) in Hp; [|apply to_point_Ok_inv]. subst points.
  rewrite mbind_Ok.
  destruct (batchLocate I (map (point_of I) fires)) as [localizados|]; [|discriminate].
  rewrite mbind_Ok.
  destruct localizados as [| | | | |arr|]; try discriminate.
  simpl as_array. rewrite mbind_Ok. intros Hm. exists arr. split; [done|].
  apply (mapM_Ok_map _ padronizado) in Hm; [done | apply with_cidade_Ok_inv].
Qed.

(** X16. [addMunicipalityLocationData] returns one record for each item
    the matcher answered for the batch's points, in the same order. Each
    record keeps every field of its item, and its [localizacao] keeps every
    field of the item's [localizacao] ([municipio], [comandoRegional], ...):
    only [cidade] is written. *)
Theorem standardization_only_adds_cidade I fires located :
  addMunicipalityLocationData I fires = Ok located ->
  exists arr,
    batchLocate I (map (point_of I) fires) = Ok (JArr arr)
    /\ length located = length arr
    /\ Forall2 (fun foco r =>
                  (forall k, k <> "localizacao" -> opt_prop r k = opt_prop foco k)
                  /\ (forall k, k <> "cidade" ->
                        opt_prop (opt_prop r "localizacao") k
                        = opt_prop (opt_prop foco "localizacao") k))
               arr located.
Proof.
  intros Ha. apply addMunicipalityLocationData_Ok_matcher in Ha as (arr & Hb & ->).
  exists arr. split; [done|]. split; [by rewrite length_map|].
  clear Hb. induction arr as [|foco arr IH]; simpl; constructor; [|done].
  split; intros k Hk.
  - by apply padronizado_keeps.
  - by apply padronizado_localizacao_keeps.
Qed.

Lemma from_geocoder_keeps item r k :
  from_geocoder item = Ok r -> k <> "localizacao" ->
  opt_prop r k = opt_prop (opt_prop item "fireData") k.
Proof.
  unfold from_geocoder.
  destruct (prop item "fireData") as [fd|] eqn:Hfd; [|discriminate].
  apply prop_Ok_inv in Hfd as [Hn ->].
  rewrite mbind_Ok, prop_not_nullish, mbind_Ok by done.
  intros [= <-] Hk. simpl.
  rewrite field_set_field_ne by done. apply field_spread.
Qed.

(** X17. When the fallback succeeds it returns one record for each item
    the geocoder answered, in the same order; each record has every field
    of the item's [fireData] (the source record), and its [localizacao] is
    the item's. *)
Theorem fallback_records_keep_source_fields I fires out :
  fst (run (fallback I fires)) = Ok out ->
  exists arr,
    batchGeocode I (map (point_of I) fires) = Ok (JArr arr)
    /\ length out = length arr
    /\ Forall2 (fun item r =>
                  (forall k, k <> "localizacao" ->
                     opt_prop r k = opt_prop (opt_prop item "fireData") k)
                  /\ opt_prop r "localizacao" = opt_prop item "localizacao")
               arr out.
Proof.
  intros Hout. apply fallback_Ok_inv in Hout as (arr & Hg & Hm).
  exists arr. split; [done|]. apply mapM_Ok_inv in Hm.
  split; [symmetry; by eapply Forall2_length|].
  eapply Forall2_impl; [exact Hm|]. intros item r Hr. split.
  - intros k Hk. by apply from_geocoder_keeps.
  - by apply from_geocoder_localizacao.
Qed.

Lemma to_point_Throw_inv I fire e :
  to_point I fire = Throw e -> exists msg, e = TypeError msg.
Proof. destruct fire; simpl; intros [= <-] || discriminate; eauto. Qed.

Lemma points_fail_on_nullish I fires :
  Exists (fun f => nullish f = true) fires ->
  exists msg, mapM (to_point I) fires = Throw (TypeError msg).
Proof.
  induction 1 as [f fires Hf | f fires _ [msg IH]]; simpl.
  - destruct f; try discriminate; simpl; eauto.
  - destruct (to_point I f) as [pt|e] eqn:Hp; simpl.
    + rewrite IH. simpl. eauto.
    + apply to_point_Throw_inv in Hp as [msg' ->]. eauto.
Qed.

(** X18. A batch that holds an [undefined] or [null] record makes
    [addLocationData] fail with a TypeError: building the points fails in
    the [try] block and again in the [catch] block, so neither path
    answers and the geocoder is not called. *)
Theorem nullish_record_fails_the_batch I fires :
  Exists (fun f => nullish f = true) fires ->
  exists msg, run (addLocationData I fires) = (Throw (TypeError msg), []).
Proof.
  intros Hn. destruct (points_fail_on_nullish I fires Hn) as [msg Hp].
  exists msg. rewrite addLocationData_run.
  assert (Hprim : primary I fires = Throw (TypeError msg)).
  { unfold primary, addMunicipalityLocationData. by rewrite Hp. }
  rewrite Hprim. unfold run, fallback, lift. unfold mbind at 1, M_bind.
  by rewrite Hp.
Qed.

Lemma fallback_calls I fires :
  snd (run (fallback I fires))
  = match mapM (to_point I) fires with
    | Ok points => [points]
    | Throw _ => []
    end.
Proof.
  unfold run, fallback, lift, geocode, mbind, M_bind.
  destruct (mapM (to_point I) fires) as [points|]; simpl; [|done].
  destruct (batchGeocode I points) as [locations|]; simpl; [|done].
  destruct (as_array locations) as [arr|]; simpl; [|done].
  by destruct (count_if sem_municipio arr).
Qed.

(** X19. One call of [addLocationData] submits at most one batch to the
    geocoder, never more: either none (the primary result was accepted, or
    the points could not be built), or exactly the points of the whole
    batch. *)
Theorem at_most_one_geocoder_call I fires :
  snd (run (addLocationData I fires)) = []
  \/ (mapM (to_point I) fires = Ok (map (point_of I) fires)
      /\ snd (run (addLocationData I fires)) = [map (point_of I) fires]).
Proof.
  rewrite addLocationData_run.
  destruct (primary I fires) as [located|e]; [by left|].
  rewrite fallback_calls.
  destruct (mapM (to_point I) fires) as [points|e'] eqn:Hp; [|by left].
  apply (mapM_Ok_map _ (point_of I)) in Hp; [|apply to_point_Ok_inv]. subst points.
  by right.
Qed.
End EnrichmentLaws.

Lemma standardization_only_adds_cidade_witness :
  exists arr,
    FireService.batchLocate
      (Samples.imports [] Samples.locate_all Samples.geocode_bare)
      (map (Terms.point_of (Samples.imports [] Samples.locate_all Samples.geocode_bare))
           Samples.three_fires) = Ok (JArr arr)
    /\ length (map Terms.padronizado
                 (map (Samples.matched "Sorriso")
                    (map (Terms.point_of
                            (Samples.imports [] Samples.locate_all Samples.geocode_bare))
                         Samples.three_fires))) = length arr
    /\ Forall2 (fun foco r =>
                  (forall k, k <> "localizacao" -> opt_prop r k = opt_prop foco k)
                  /\ (forall k, k <> "cidade" ->
                        opt_prop (opt_prop r "localizacao") k
                        = opt_prop (opt_prop foco "localizacao") k))
               arr
               (map Terms.padronizado
                  (map (Samples.matched "Sorriso")
                     (map (Terms.point_of
                             (Samples.imports [] Samples.locate_all Samples.geocode_bare))
                          Samples.three_fires))).
Proof.
  apply (standardization_only_adds_cidade
           (Samples.imports [] Samples.locate_all Samples.geocode_bare)
           Samples.three_fires).
  reflexivity.
Defined.

Lemma fallback_records_keep_source_fields_witness :
  exists arr,
    FireService.batchGeocode
      (Samples.imports [] Samples.locate_all Samples.geocode_bare)
      (map (Terms.point_of (Samples.imports [] Samples.locate_all Samples.geocode_bare))
           Samples.three_fires) = Ok (JArr arr)
    /\ length (map (fun f => JObj (set_field (spread f) "localizacao" JUndef))
                 Samples.three_fires) = length arr
    /\ Forall2 (fun item r =>
                  (forall k, k <> "localizacao" ->
                     opt_prop r k = opt_prop (opt_prop item "fireData") k)
                  /\ opt_prop r "localizacao" = opt_prop item "localizacao")
               arr
               (map (fun f => JObj (set_field (spread f) "localizacao" JUndef))
                  Samples.three_fires).
Proof.
  apply (fallback_records_keep_source_fields
           (Samples.imports [] Samples.locate_all Samples.geocode_bare)
           Samples.three_fires).
  reflexivity.
Defined.

Lemma nullish_record_fails_the_batch_witness :
  exists msg,
    FireService.run
      (FireService.addLocationData
         (Samples.imports [] Samples.locate_all Samples.geocode_bare)
         [Samples.fire "VIIRS" "-12.55" "-55.72"; JNull])
    = (Throw (TypeError msg), []).
Proof.
  apply (nullish_record_fails_the_batch
           (Samples.imports [] Samples.locate_all Samples.geocode_bare)
           [Samples.fire "VIIRS" "-12.55" "-55.72"; JNull]).
  apply Exists_cons_tl, Exists_cons_hd. reflexivity.
Defined.

(* ===================================================================== *)
(** ** Properties of the dashboard services *)
(* ===================================================================== *)

Section Dashboard.
Import Terms Terms2 Frontend.
Implicit Types (F : Imports) (json : JsVal) (focos : list JsVal).

Lemma extrairDadosOuVazio_array json :
  exists l, extrairDadosOuVazio json = Ok (JArr l)
            /\ (isArray (opt_prop json "dados") = true -> opt_prop json "dados" = JArr l)
            /\ (isArray (opt_prop json "dados") = false -> l = []).
Proof.
  unfold extrairDadosOuVazio, dadosSaoValidos.
  destruct json as [| | | | | |fs]; simpl; try (by exists []).
  destruct (field fs "dados") as [| | | | |l|]; simpl; try (by exists []).
  by exists l.
Qed.

(** X20. [buscarFocosComLocalizacao] and [buscarDadosSemanais] never
    throw and always answer an array: the array under [dados] (under
    [dadosDiarios]) of the response when there is one, and the empty array
    when the URL cannot be built, the request or the JSON parsing fails, or
    the response has no array under that name. *)
Theorem dashboard_lists_are_always_arrays F :
  (exists l, buscarFocosComLocalizacao F = Ok (JArr l))
  /\ (exists l, buscarDadosSemanais F = Ok (JArr l))
  /\ (forall url json,
        montarUrl F FIRE_LOCATIONS [("dt", JStr (hoje F))] = Ok url ->
        buscarJson F url = Ok json ->
        buscarFocosComLocalizacao F
        = Ok (if isArray (opt_prop json "dados") then opt_prop json "dados" else JArr []))
  /\ (forall url json,
        montarUrl F FIRE_WEEKLY_STATS [] = Ok url ->
        buscarJson F url = Ok json ->
        buscarDadosSemanais F
        = Ok (if isArray (opt_prop json "dadosDiarios")
              then opt_prop json "dadosDiarios" else JArr [])).
Proof.
  repeat apply conj.
  - unfold buscarFocosComLocalizacao.
    destruct (montarUrl F FIRE_LOCATIONS _) as [url|]; simpl; [|by exists []].
    destruct (buscarJson F url) as [json|]; simpl; [|by exists []].
    destruct (extrairDadosOuVazio_array json) as (l & -> & _). by exists l.
  - unfold buscarDadosSemanais.
    destruct (montarUrl F FIRE_WEEKLY_STATS _) as [url|]; simpl; [|by exists []].
    destruct (buscarJson F url) as [json|]; simpl; [|by exists []].
    destruct json as [| | | | | |fs]; simpl; try (by exists []).
    destruct (field fs "dadosDiarios") as [| | | | |l|]; simpl; try (by exists []).
    by exists l.
  - intros url json Hu Hj. unfold buscarFocosComLocalizacao. rewrite Hu. simpl.
    rewrite Hj. simpl. unfold extrairDadosOuVazio, dadosSaoValidos.
    destruct json as [| | | | | |fs]; simpl; try done.
    by destruct (field fs "dados").
  - intros url json Hu Hj. unfold buscarDadosSemanais. rewrite Hu. simpl.
    rewrite Hj. simpl.
    destruct json as [| | | | | |fs]; simpl; try done.
    by destruct (field fs "dadosDiarios").
Qed.

(** X21. [buscarFocos] never throws. It answers the empty array when the
    URL cannot be built, when the request or the JSON parsing fails, and
    when the response or its [dados] is falsy; otherwise it answers
    [dados] as it is, which is truthy but need not be an array. *)
Theorem buscarFocos_never_throws F (dataISO : JsVal) :
  (exists v, buscarFocos F dataISO = Ok v /\ (v = JArr [] \/ truthy v = true))
  /\ (forall url json,
        montarUrl F "/api/firms/fires" [("dt", dataISO); ("all", JBool true)] = Ok url ->
        buscarJson F url = Ok json ->
        buscarFocos F dataISO
        = Ok (if truthy json && truthy (opt_prop json "dados")
              then opt_prop json "dados" else JArr [])).
Proof.
  assert (Hjson : forall json,
            (if negb (truthy json) then Ok (JArr [])
             else dados ← prop json "dados";
                  if negb (truthy dados) then Ok (JArr []) else prop json "dados")
            = Ok (if truthy json && truthy (opt_prop json "dados")
                  then opt_prop json "dados" else JArr [])).
  { intros json. destruct (truthy json) eqn:Ht; simpl; [|done].
    assert (Hn : nullish json = false) by (by destruct json).
    rewrite (prop_not_nullish _ _ Hn), mbind_Ok.
    by destruct (truthy (opt_prop json "dados")). }
  split.
  - unfold buscarFocos.
    destruct (montarUrl F "/api/firms/fires" _) as [url|]; simpl; [|eauto].
    destruct (buscarJson F url) as [json|]; simpl; [|eauto].
    rewrite Hjson. simpl. eexists. split; [reflexivity|].
    destruct (truthy json); simpl; [|by left].
    destruct (truthy (opt_prop json "dados")) eqn:Hd; [by right | by left].
  - intros url json Hu Hj. unfold buscarFocos. rewrite Hu. simpl.
    rewrite Hj. simpl. by rewrite Hjson.
Qed.

(** *** [encontrarCoordenadasCidade] *)

Lemma find_first (p : JsVal -> Res bool) (pre post : list JsVal) (x : JsVal) :
  Forall (fun y => p y = Ok false) pre -> p x = Ok true ->
  find p (pre ++ x :: post) = Ok (Some x).
Proof.
  intros Hpre Hx. induction Hpre as [|y pre Hy _ IH]; simpl.
  - by rewrite Hx.
  - by rewrite Hy.
Qed.

Lemma find_none (p : JsVal -> Res bool) (l : list JsVal) :
  Forall (fun y => p y = Ok false) l -> find p l = Ok None.
Proof. induction 1 as [|y l Hy _ IH]; simpl; [done | by rewrite Hy]. Qed.

Lemma find_some (p : JsVal -> Res bool) (l : list JsVal) :
  Forall (fun y => exists b, p y = Ok b) l ->
  Exists (fun y => p y = Ok true) l ->
  exists x, find p l = Ok (Some x) /\ x ∈ l /\ p x = Ok true.
Proof.
  intros Hall Hex. induction Hall as [|y l [b Hy] Hall IH]; simpl.
  - by apply Exists_nil in Hex.
  - rewrite Hy. simpl. destruct b.
    + exists y. split; [done|]. split; [left | done].
    + apply Exists_cons in Hex as [Hex|Hex]; [congruence|].
      destruct (IH Hex) as (x & Hf & Hin & Hp).
      exists x. split; [done|]. split; [by right | done].
Qed.

Lemma mesma_cidade_true_truthy F n f : mesma_cidade F n f = Ok true -> truthy f = true.
Proof.
  unfold mesma_cidade. destruct f as [| | | | | |fs]; simpl; try discriminate. done.
Qed.

(** X22. [encontrarCoordenadasCidade] answers from the first record of
    the list whose city has the requested name once both are normalized,
    and [null] when no record has. From that record it takes the
    coordinates of the first feature of type ['place'] in
    [localizacao.outros_dados.features], second coordinate as [lat] and
    first as [lng]; when there is no feature list it takes the record's
    own [latitude] and [longitude]. *)
Theorem encontrarCoordenadasCidade_first_match F (nomeCidade : JsVal) (n : string) :
  normalizeString F nomeCidade = Ok n ->
  (forall focos,
      Forall (fun f => mesma_cidade F n f = Ok false) focos ->
      encontrarCoordenadasCidade F focos nomeCidade = Ok JNull)
  /\ (forall pre foco post,
        Forall (fun f => mesma_cidade F n f = Ok false) pre ->
        mesma_cidade F n foco = Ok true ->
        isArray (opt_prop (opt_prop (opt_prop foco "localizacao") "outros_dados")
                   "features") = false ->
        encontrarCoordenadasCidade F (pre ++ foco :: post) nomeCidade
        = Ok (own_coordinates foco))
  /\ (forall pre foco post fpre feat fpost coordinates,
        Forall (fun f => mesma_cidade F n f = Ok false) pre ->
        mesma_cidade F n foco = Ok true ->
        opt_prop (opt_prop (opt_prop foco "localizacao") "outros_dados") "features"
        = JArr (fpre ++ feat :: fpost) ->
        Forall (fun f => is_place f = Ok false) fpre ->
        is_place feat = Ok true ->
        opt_prop (opt_prop feat "geometry") "coordinates" = coordinates ->
        truthy coordinates = true ->
        encontrarCoordenadasCidade F (pre ++ foco :: post) nomeCidade
        = Ok (JObj [("lat", index coordinates 1); ("lng", index coordinates 0)])).
Proof.
  intros Hn. repeat apply conj.
  - intros focos Hnone. unfold encontrarCoordenadasCidade.
    by rewrite Hn, mbind_Ok, (find_none _ _ Hnone).
  - intros pre foco post Hpre Hfoco Hfeat. unfold encontrarCoordenadasCidade.
    rewrite Hn, mbind_Ok, (find_first _ _ _ _ Hpre Hfoco), mbind_Ok.
    rewrite (mesma_cidade_true_truthy _ _ _ Hfoco). simpl negb. cbv iota.
    by destruct (opt_prop (opt_prop (opt_prop foco "localizacao") "outros_dados")
                   "features").
  - intros pre foco post fpre feat fpost coordinates Hpre Hfoco Hfeats Hfpre Hfeat Hc Ht.
    unfold encontrarCoordenadasCidade.
    rewrite Hn, mbind_Ok, (find_first _ _ _ _ Hpre Hfoco), mbind_Ok.
    rewrite (mesma_cidade_true_truthy _ _ _ Hfoco). simpl negb. cbv iota.
    rewrite Hfeats, (find_first _ _ _ _ Hfpre Hfeat), mbind_Ok, Hc, Ht.
    assert (Hfeat_t : truthy feat = true).
    { unfold is_place in Hfeat. destruct feat; simpl in Hfeat; try discriminate; done. }
    by rewrite Hfeat_t.
Qed.

Lemma mesma_cidade_padronizado F n foco :
  municipio_typed foco ->
  exists s, cidade_of (padronizado foco) = JStr s
            /\ mesma_cidade F n (padronizado foco)
               = Ok (String.eqb (fold_name F s) n).
Proof.
  intros Hty. destruct (js_or_default_string _ Hty) as (s & Hs & Hne).
  exists s. rewrite cidade_of_padronizado. split; [done|].
  destruct (padronizado_props foco) as (Hl & Ht & _).
  unfold mesma_cidade. rewrite Hl, mbind_Ok, Ht. simpl negb. cbv iota.
  assert (Hc : prop (opt_prop (padronizado foco) "localizacao") "cidade"
               = Ok (JStr s)).
  { rewrite <- Hs, <- cidade_of_padronizado. unfold cidade_of.
    by rewrite localizacao_padronizado. }
  rewrite Hc, mbind_Ok. unfold normalizeString. simpl truthy.
  destruct (String.eqb_spec s EmptyString) as [->|_]; [done|]. done.
Qed.

(** X23. The lookup finds every city the standardization produced: for
    records made by [addMunicipalityLocationData] from matcher items whose
    municipality is a string or is missing, looking up the [cidade] of any
    of these records never answers [null]. *)
Theorem standardized_cities_are_found F (arr : list JsVal) (r : JsVal) (s : string) :
  Forall municipio_typed arr ->
  r ∈ map padronizado arr ->
  cidade_of r = JStr s ->
  encontrarCoordenadasCidade F (map padronizado arr) (JStr s) <> Ok JNull.
Proof.
  intros Hty Hr Hs.
  apply list_elem_of_In, in_map_iff in Hr as (foco & <- & Hin).
  assert (Htyf : municipio_typed foco).
  { rewrite List.Forall_forall in Hty. by apply Hty. }
  destruct (mesma_cidade_padronizado F (fold_name F s) foco Htyf) as (s0 & Hs0 & Hm0).
  rewrite Hs in Hs0. injection Hs0 as <-.
  assert (Hne : s <> EmptyString).
  { pose proof (js_or_default_truthy (municipio_of foco)) as Ht.
    rewrite <- cidade_of_padronizado, Hs in Ht. simpl in Ht.
    intros ->. discriminate. }
  assert (Hnorm : normalizeString F (JStr s) = Ok (fold_name F s)).
  { unfold normalizeString. simpl. by destruct (String.eqb_spec s EmptyString). }
  destruct (find_some (mesma_cidade F (fold_name F s)) (map padronizado arr))
    as (x & Hfind & Hx & Hpx).
  - apply List.Forall_forall. intros y Hy.
    apply in_map_iff in Hy as (f & <- & Hf).
    assert (Htf : municipio_typed f).
    { rewrite List.Forall_forall in Hty. by apply Hty. }
    destruct (mesma_cidade_padronizado F (fold_name F s) f Htf) as (s' & _ & ->). eauto.
  - apply List.Exists_exists. exists (padronizado foco). split.
    + by apply in_map.
    + rewrite Hm0. by rewrite String.eqb_refl.
  - unfold encontrarCoordenadasCidade.
    rewrite Hnorm, mbind_Ok, Hfind, mbind_Ok.
    rewrite (mesma_cidade_true_truthy _ _ _ Hpx). simpl negb. cbv iota.
    destruct (opt_prop (opt_prop (opt_prop x "localizacao") "outros_dados") "features")
      as [| | | | |fl|]; try discriminate.
    destruct (find is_place fl) as [[feat|]|]; simpl; try discriminate.
    by destruct (truthy feat && truthy (opt_prop (opt_prop feat "geometry") "coordinates")).
Qed.
End Dashboard.

Lemma encontrarCoordenadasCidade_first_match_witness :
  Frontend.encontrarCoordenadasCidade (Samples2.dashboard (Ok JNull))
    ([Samples2.located_fire "Sinop" "-11.86" "-55.50"]
     ++ Samples2.located_fire "Sorriso" "-12.55" "-55.72"
        :: [Samples2.located_fire "Sorriso" "-12.60" "-55.80"])
    (JStr "Sorriso")
  = Ok (Frontend.own_coordinates (Samples2.located_fire "Sorriso" "-12.55" "-55.72")).
Proof.
  apply (proj1 (proj2 (encontrarCoordenadasCidade_first_match
    (Samples2.dashboard (Ok JNull)) (JStr "Sorriso") "Sorriso" eq_refl))).
  - repeat constructor.
  - reflexivity.
  - reflexivity.
Defined.

Lemma standardized_cities_are_found_witness :
  Frontend.encontrarCoordenadasCidade (Samples2.dashboard (Ok JNull))
    (map Terms.padronizado
       [Samples.matched "Sorriso" (Samples.fire "VIIRS" "-12.55" "-55.72");
        Samples.fire "MODIS" "-15.60" "-56.10"])
    (JStr "N/A")
  <> Ok JNull.
Proof.
  apply (standardized_cities_are_found (Samples2.dashboard (Ok JNull))
           [Samples.matched "Sorriso" (Samples.fire "VIIRS" "-12.55" "-55.72");
            Samples.fire "MODIS" "-15.60" "-56.10"]
           (Terms.padronizado (Samples.fire "MODIS" "-15.60" "-56.10")) "N/A").
  - constructor; [left; reflexivity|]. constructor; [right; reflexivity|]. constructor.
  - apply list_elem_of_In. right. left. reflexivity.
  - reflexivity.
Defined.

(* ===================================================================== *)
(** ** Decimal page and limit parameters *)
(* ===================================================================== *)

Section Decimal.
Import FireService Terms Terms2.

Lemma digits_value_acc (d : Decimal.uint) (p : positive) :
  Z.pos (Pos.of_uint_acc d p) = digits_value d (Z.pos p).
Proof.
  revert p. induction d; intros p; simpl; [done | ..];
    rewrite IHd; f_equal; lia.
Qed.

Lemma digits_value_of_uint (d : Decimal.uint) : Z.of_uint d = digits_value d 0.
Proof.
  unfold Z.of_uint. induction d; simpl; try done;
    rewrite digits_value_acc; f_equal.
Qed.

Lemma read_digits_uint (d : Decimal.uint) (acc : Z) (sfx : string) :
  ends_number sfx ->
  read_digits (NilEmpty.string_of_uint d ++ sfx)%string (Some acc)
  = Some (digits_value d acc).
Proof.
  intros Hs. revert acc. induction d; intros acc; simpl;
    try (rewrite IHd; do 2 f_equal; lia).
  - destruct sfx as [|c r]; simpl; [done|]. simpl in Hs. by rewrite Hs.
  - rewrite IHd. do 2 f_equal. change (Z.of_nat (nat_of_ascii "0")) with 48. lia.
Qed.

Lemma read_digits_start (s : string) c :
  digit_of c <> None ->
  read_digits (String c s) None = read_digits (String c s) (Some 0).
Proof. intros Hc. simpl. by destruct (digit_of c). Qed.

Lemma uint_head (d : Decimal.uint) :
  d <> Decimal.Nil ->
  exists c r, NilEmpty.string_of_uint d = String c r
              /\ digit_of c <> None /\ is_space c = false
              /\ c <> "-"%char /\ c <> "+"%char.
Proof.
  destruct d; [done | ..]; intros _; simpl; eexists _, _;
    (split; [reflexivity|]); repeat split; discriminate.
Qed.


Lemma signless_head (c : ascii) (r : string) :
  c <> "-"%char -> c <> "+"%char ->
  parseInt_string (String c r)
  = if is_space c then parseInt_string r
    else match read_digits (String c r) None with
         | Some n => Num (1 * n)
         | None => NaN
         end.
Proof.
  intros Hm Hp. unfold parseInt_string at 1. simpl skip_spaces.
  destruct (is_space c) eqn:Hsp; [done|].
  destruct c as [[|] [|] [|] [|] [|] [|] [|] [|]]; try reflexivity; congruence.
Qed.

Lemma parse_unsigned (d : Decimal.uint) (sfx : string) :
  d <> Decimal.Nil -> ends_number sfx ->
  parseInt_string (NilEmpty.string_of_uint d ++ sfx)%string = Num (Z.of_uint d).
Proof.
  intros Hd Hs. destruct (uint_head d Hd) as (c & r & Hcr & Hdig & Hsp & Hm & Hp).
  pose proof (read_digits_uint d 0 sfx Hs) as Hr.
  rewrite Hcr in Hr |- *.
  change (String c r ++ sfx)%string with (String c (r ++ sfx)) in Hr |- *.
  rewrite <- (read_digits_start _ _ Hdig) in Hr.
  rewrite (signless_head _ _ Hm Hp), Hsp, Hr.
  by rewrite digits_value_of_uint, Z.mul_1_l.
Qed.

Lemma minus_head (r : string) :
  parseInt_string (String "-" r)
  = match read_digits r None with
    | Some n => Num (-1 * n)
    | None => NaN
    end.
Proof. reflexivity. Qed.

Lemma parse_decimal (z : Z) (sfx : string) :
  ends_number sfx -> parseInt_string (string_of_Z z ++ sfx)%string = Num z.
Proof.
  intros Hs. unfold string_of_Z. rewrite <- (DecimalZ.of_to z) at 2.
  destruct z as [|p|p]; simpl Z.to_int; simpl NilZero.string_of_int.
  - apply (parse_unsigned (Decimal.D0 Decimal.Nil) sfx); done.
  - assert (Hp := DecimalPos.Unsigned.to_uint_nonnil p).
    assert (Hu : NilZero.string_of_uint (Pos.to_uint p)
                 = NilEmpty.string_of_uint (Pos.to_uint p)).
    { unfold NilZero.string_of_uint. by destruct (Pos.to_uint p). }
    rewrite Hu. by apply parse_unsigned.
  - assert (Hp := DecimalPos.Unsigned.to_uint_nonnil p).
    assert (Hu : NilZero.string_of_uint (Pos.to_uint p)
                 = NilEmpty.string_of_uint (Pos.to_uint p)).
    { unfold NilZero.string_of_uint. by destruct (Pos.to_uint p). }
    rewrite Hu. destruct (uint_head _ Hp) as (c & r & Hcr & Hdig & _).
    pose proof (read_digits_uint (Pos.to_uint p) 0 sfx Hs) as Hr.
    change (String "-" (NilEmpty.string_of_uint (Pos.to_uint p)) ++ sfx)%string
      with (String "-" (NilEmpty.string_of_uint (Pos.to_uint p) ++ sfx)).
    rewrite minus_head.
    rewrite Hcr in Hr |- *.
    change (String c r ++ sfx)%string with (String c (r ++ sfx)) in Hr |- *.
    rewrite <- (read_digits_start _ _ Hdig) in Hr. rewrite Hr.
    rewrite <- digits_value_of_uint. simpl Z.of_int. f_equal; lia.
Qed.

End Decimal.


(* ===================================================================== *)
(** ** Keys of typed queries *)
(* ===================================================================== *)

Section KeyInjectivity.
Import CacheCore Terms Terms2.

Lemma append_assoc_r (a b c : string) :
  ((a ++ b) ++ c)%string = (a ++ (b ++ c))%string.
Proof.
  induction a as [|x a IH]; [done|].
  change (String x ((a ++ b) ++ c)%string = String x (a ++ (b ++ c))%string).
  by rewrite IH.
Qed.

Lemma append_inj_prefix (p a b : string) : (p ++ a)%string = (p ++ b)%string -> a = b.
Proof.
  induction p as [|x p IH]; [done|].
  change (String x (p ++ a)%string = String x (p ++ b)%string -> a = b).
  intros [= Heq]. by apply IH.
Qed.

(** [unescape_head] reads back what [escape_char] wrote. *)
Lemma unescape_head_escape_char (c : ascii) (x : string) :
  unescape_head (escape_char c ++ x)%string = Some (c, x).
Proof. destruct c as [[|] [|] [|] [|] [|] [|] [|] [|]]; reflexivity. Qed.

Lemma escape_cons (c : ascii) (s t : string) :
  (escape (String c s) ++ t)%string = (escape_char c ++ (escape s ++ t))%string.
Proof. simpl escape. apply append_assoc_r. Qed.

Lemma escape_char_not_quote (c : ascii) (x t : string) :
  String (ascii_of_nat 34) t <> (escape_char c ++ x)%string.
Proof.
  intros Heq. pose proof (unescape_head_escape_char c x) as Hu.
  rewrite <- Heq in Hu. injection Hu as <- _. discriminate.
Qed.

(** The text written for a string, up to its closing quote, determines the
    string and what follows the quote. *)
Lemma escape_inj (s1 s2 t1 t2 : string) :
  (escape s1 ++ dquote ++ t1)%string = (escape s2 ++ dquote ++ t2)%string ->
  s1 = s2 /\ t1 = t2.
Proof.
  revert s2. induction s1 as [|c1 s1 IH]; intros [|c2 s2].
  - intros Heq. change (dquote ++ t1 = dquote ++ t2)%string in Heq.
    apply append_inj_prefix in Heq. by subst.
  - rewrite escape_cons. intros Heq. by apply escape_char_not_quote in Heq.
  - rewrite escape_cons. intros Heq. symmetry in Heq.
    by apply escape_char_not_quote in Heq.
  - rewrite !escape_cons. intros Heq.
    assert (Hu : Some (c1, (escape s1 ++ dquote ++ t1)%string)
                 = Some (c2, (escape s2 ++ dquote ++ t2)%string)).
    { rewrite <- !unescape_head_escape_char. by rewrite Heq. }
    injection Hu as -> Hrest. destruct (IH _ Hrest) as [-> ->]. done.
Qed.

(** The decimal text of an integer, up to a comma, determines the integer
    and what follows the comma. *)
Lemma number_inj (d1 d2 : Z) (t1 t2 : string) :
  (string_of_Z d1 ++ "," ++ t1)%string = (string_of_Z d2 ++ "," ++ t2)%string ->
  d1 = d2 /\ t1 = t2.
Proof.
  intros Heq.
  assert (Hd : Num d1 = Num d2).
  { rewrite <- (parse_decimal d1 ("," ++ t1)), <- (parse_decimal d2 ("," ++ t2)) by done.
    by rewrite Heq. }
  injection Hd as ->. do 2 apply append_inj_prefix in Heq. by subst.
Qed.

(** X25. Keys of well-typed queries do not collide. Two listing queries
    with an integer [dayRange], a string [date] and no [timeRange] that get
    the same [gerarChaveResultado] key have the same [dayRange] and
    [date]; two sensor queries with string [sensor], [bbox] and [date]
    and an integer [dayRange] that get the same [gerarChaveSensor] key have
    the same four parameters. *)
Theorem typed_keys_do_not_collide :
  (forall (fs1 fs2 : list (string * JsVal)) (d1 d2 : Z) (s1 s2 : string),
      field fs1 "dayRange" = JNum (Num d1) -> field fs1 "date" = JStr s1 ->
      field fs1 "timeRange" = JUndef ->
      field fs2 "dayRange" = JNum (Num d2) -> field fs2 "date" = JStr s2 ->
      field fs2 "timeRange" = JUndef ->
      gerarChaveResultado (JObj fs1) = gerarChaveResultado (JObj fs2) ->
      d1 = d2 /\ s1 = s2)
  /\ (forall (a1 b1 e1 a2 b2 e2 : string) (d1 d2 : Z),
        gerarChaveSensor (JStr a1) (JStr b1) (JNum (Num d1)) (JStr e1)
        = gerarChaveSensor (JStr a2) (JStr b2) (JNum (Num d2)) (JStr e2) ->
        a1 = a2 /\ b1 = b2 /\ d1 = d2 /\ e1 = e2).
Proof.
  split.
  - intros fs1 fs2 d1 d2 s1 s2 Hd1 Hs1 Ht1 Hd2 Hs2 Ht2.
    unfold gerarChaveResultado, bind, prop.
    rewrite Hd1, Hs1, Ht1, Hd2, Hs2, Ht2. intros [= Hk].
    cbv [serialize join flat_map fold_left is_undefined quote List.app] in Hk.
    rewrite !append_assoc_r in Hk.
    repeat apply append_inj_prefix in Hk.
    apply number_inj in Hk as [-> Hk].
    repeat apply append_inj_prefix in Hk.
    by apply escape_inj in Hk as [-> _].
  - intros a1 b1 e1 a2 b2 e2 d1 d2 Hk. unfold gerarChaveSensor in Hk.
    cbv [serialize join flat_map fold_left is_undefined quote List.app] in Hk.
    rewrite !append_assoc_r in Hk.
    repeat apply append_inj_prefix in Hk.
    apply escape_inj in Hk as [-> Hk].
    repeat apply append_inj_prefix in Hk.
    apply escape_inj in Hk as [-> Hk].
    repeat apply append_inj_prefix in Hk.
    apply number_inj in Hk as [-> Hk].
    repeat apply append_inj_prefix in Hk.
    by apply escape_inj in Hk as [-> _].
Qed.
End KeyInjectivity.
